(** * configure/dotenv: the DotEnv checker

    A shallow embedding of [dotenv.go] (package [configure]) and the
    properties of its line parser, of [Setup] and of the typed accessors.

    Go strings are byte sequences; they are modelled by [string], whose
    characters are the 256 [ascii] values.  The store
    [map[string]interface{}] is a [gmap string iface]; a nil map is [None].
    A run-time panic is an explicit outcome of the accessors. *)

From Stdlib Require Import Ascii String ZArith QArith Qround.
From stdpp Require Import base strings list gmap.

Local Open Scope string_scope.
Local Open Scope list_scope.

(** ** Bytes used by the parser *)

Definition hash : ascii := "#"%char.
Definition equals : ascii := "="%char.
Definition colon : ascii := ":"%char.
Definition dquote : ascii := "034"%char.
Definition squote : ascii := "'"%char.
Definition space : ascii := " "%char.
Definition newline : ascii := "010"%char.
Definition tab : ascii := "009"%char.
Definition backslash : ascii := "092"%char.

(** A one-byte string, as the Go literal for a single hash. *)
Definition str (c : ascii) : string := String c "".

(** ** The functions of Go's [strings] package that [dotenv.go] calls

    [Contains], [Count], [Split] and [SplitN] are only ever called with a
    one-byte separator, which is their second argument here. *)
Module GoStrings.

(** [strings.Contains(s, sep)] *)
Fixpoint Contains (s : string) (sep : ascii) : bool :=
  match s with
  | "" => false
  | String c s' => if Ascii.eqb c sep then true else Contains s' sep
  end.

(** [strings.Count(s, sep)] *)
Fixpoint Count (s : string) (sep : ascii) : nat :=
  match s with
  | "" => 0
  | String c s' => if Ascii.eqb c sep then S (Count s' sep) else Count s' sep
  end.

(** [strings.Split(s, sep)]: the substrings between the separators; one
    more element than there are separators. *)
Fixpoint Split (s : string) (sep : ascii) : list string :=
  match s with
  | "" => [""]
  | String c s' =>
      if Ascii.eqb c sep then "" :: Split s' sep
      else match Split s' sep with
           | seg :: segs => String c seg :: segs
           | [] => [str c]
           end
  end.

(** [strings.Join(elems, sep)] *)
Fixpoint Join (elems : list string) (sep : string) : string :=
  match elems with
  | [] => ""
  | [e] => e
  | e :: rest => e +:+ sep +:+ Join rest sep
  end.

(** The text before and after the first [sep], when there is one. *)
Fixpoint cut (s : string) (sep : ascii) : option (string * string) :=
  match s with
  | "" => None
  | String c s' =>
      if Ascii.eqb c sep then Some ("", s')
      else match cut s' sep with
           | Some (before, after) => Some (String c before, after)
           | None => None
           end
  end.

(** [strings.SplitN(s, sep, n)] for [n >= 0]: at most [n] substrings, the
    last one being the unsplit remainder. *)
Fixpoint SplitN (s : string) (sep : ascii) (n : nat) : list string :=
  match n with
  | 0 => []
  | 1 => [s]
  | S n' =>
      match cut s sep with
      | Some (before, after) => before :: SplitN after sep n'
      | None => [s]
      end
  end.

(** [strings.HasPrefix(s, prefix)] *)
Fixpoint HasPrefix (s prefix : string) {struct prefix} : bool :=
  match prefix with
  | "" => true
  | String p prefix' =>
      match s with
      | "" => false
      | String c s' => if Ascii.eqb c p then HasPrefix s' prefix' else false
      end
  end.

Fixpoint drop (n : nat) (s : string) : string :=
  match n, s with
  | S n', String _ s' => drop n' s'
  | _, _ => s
  end.

(** [strings.TrimPrefix(s, prefix)] *)
Definition TrimPrefix (s prefix : string) : string :=
  if HasPrefix s prefix then drop (String.length prefix) s else s.

Fixpoint inCutset (cutset : string) (c : ascii) : bool :=
  match cutset with
  | "" => false
  | String d cutset' => if Ascii.eqb c d then true else inCutset cutset' c
  end.

(** [strings.TrimLeft(s, cutset)] *)
Fixpoint TrimLeft (s cutset : string) : string :=
  match s with
  | "" => ""
  | String c s' => if inCutset cutset c then TrimLeft s' cutset else s
  end.

(** [strings.TrimRight(s, cutset)] *)
Fixpoint TrimRight (s cutset : string) : string :=
  match s with
  | "" => ""
  | String c s' =>
      match TrimRight s' cutset with
      | "" => if inCutset cutset c then "" else str c
      | kept => String c kept
      end
  end.

(** [strings.Trim(s, cutset)]: every leading and every trailing byte that
    occurs in [cutset] is removed. *)
Definition Trim (s cutset : string) : string :=
  TrimRight (TrimLeft s cutset) cutset.

(** Left-to-right replacement of the non-overlapping occurrences of [old];
    [skip] counts the bytes of a matched occurrence still to be dropped. *)
Fixpoint replaceFrom (old new : string) (skip : nat) (s : string) : string :=
  match s with
  | "" => ""
  | String c s' =>
      match skip with
      | S skip' => replaceFrom old new skip' s'
      | 0 =>
          if HasPrefix s old
          then new +:+ replaceFrom old new (String.length old - 1) s'
          else String c (replaceFrom old new 0 s')
      end
  end.

(** [strings.Replace(s, old, new, -1)] for a non-empty [old]. *)
Definition Replace (s old new : string) : string := replaceFrom old new 0 s.

End GoStrings.
Import GoStrings.

(** ** Errors, dynamic values and panics *)

(** An [error] value: made by [errors.New] in this package, or handed over
    by a library ([os], [strconv]). *)
Inductive error : Type :=
| errors_New (text : string)
| libError (origin text : string).

(** The dynamic types an [interface{}] of this program can hold. *)
Inductive gotype : Type := TString | TInt | TNil.

(** An [interface{}] value. *)
Inductive iface : Type :=
| IfaceString (s : string)
| IfaceInt (n : Z)
| IfaceNil.

Definition dynType (v : iface) : gotype :=
  match v with
  | IfaceString _ => TString
  | IfaceInt _ => TInt
  | IfaceNil => TNil
  end.

(** [fmt.Sprintf] with the verb [%T]: the name of the dynamic type. *)
Definition Sprintf_T (v : iface) : string :=
  match v with
  | IfaceString _ => "string"
  | IfaceInt _ => "int"
  | IfaceNil => "<nil>"
  end.

(** The run-time panic of a failed type assertion [v.(want)]. *)
Inductive panic : Type :=
| InterfaceConversion (have want : gotype).

(** A call either returns or panics. *)
Inductive outcome (A : Type) : Type :=
| Returns (a : A)
| Panics (p : panic).
Arguments Returns {A} a.
Arguments Panics {A} p.

#[global] Instance outcome_ret : MRet outcome := @Returns.
#[global] Instance outcome_bind : MBind outcome := fun A B k x =>
  match x with
  | Returns a => k a
  | Panics p => Panics p
  end.

(** [v.(string)] *)
Definition assertString (v : iface) : outcome string :=
  match v with
  | IfaceString s => Returns s
  | _ => Panics (InterfaceConversion (dynType v) TString)
  end.

(** [v.(int)] *)
Definition assertInt (v : iface) : outcome Z :=
  match v with
  | IfaceInt n => Returns n
  | _ => Panics (InterfaceConversion (dynType v) TInt)
  end.

(** ** The line parser *)

(** One iteration of the loop over [segmentsBetweenHashes]; the state is
    [(quotesAreOpen, segmentsToKeep)]. *)
Definition keepSegment (st : bool * list string) (segment : string)
  : bool * list string :=
  let '(quotesAreOpen, segmentsToKeep) := st in
  let '(quotesAreOpen, segmentsToKeep) :=
    if Nat.eqb (Count segment dquote) 1 || Nat.eqb (Count segment squote) 1
    then (if quotesAreOpen : bool
          then (false, segmentsToKeep ++ [segment])
          else (true, segmentsToKeep))
    else (quotesAreOpen, segmentsToKeep) in
  if Nat.eqb (List.length segmentsToKeep) 0 || quotesAreOpen
  then (quotesAreOpen, segmentsToKeep ++ [segment])
  else (quotesAreOpen, segmentsToKeep).

(** Ditch the comments (but keep quoted hashes). *)
Definition ditchComments (line : string) : string :=
  if Contains line hash
  then Join (snd (fold_left keepSegment (Split line hash) (false, []))) (str hash)
  else line.

(** Now split key from value, with the yaml fallback. *)
Definition splitKeyValue (line : string) : list string :=
  let splitString := SplitN line equals 2 in
  if negb (Nat.eqb (List.length splitString) 2)
  then SplitN line colon 2
  else splitString.

Definition parseKey (key : string) : string :=
  let key := if HasPrefix key "export" then TrimPrefix key "export" else key in
  Trim key " ".

Definition parseValue (value : string) : string :=
  let value := Trim value " " in
  if Nat.eqb (Count value dquote) 2 || Nat.eqb (Count value squote) 2
  then
    let value := Trim value (String dquote (str squote)) in
    let value := Replace value (String backslash (str dquote)) (str dquote) in
    Replace value (String backslash "n") (str newline)
  else value.

(** [parseLine]: the named results [(key, value, err)]. *)
Definition parseLine (line : string) : string * string * option error :=
  if Nat.eqb (String.length line) 0
  then ("", "", Some (errors_New "zero length string"))
  else
    let line := ditchComments line in
    match splitKeyValue line with
    | [key; value] => (parseKey key, parseValue value, None)
    | _ => ("", "", Some (errors_New "Can't separate key from value"))
    end.

Definition isIgnoredLine (line : string) : bool :=
  let trimmedLine := Trim line (String space (String newline (str tab))) in
  Nat.eqb (String.length trimmedLine) 0 || HasPrefix trimmedLine "#".

(** ** The loader *)

Section Loader.
(** [World] is what the generator closes over (the file system, for
    [os.Open]); [Reader] is an [io.Reader]; [scanLines r] is the sequence of
    tokens a [bufio.Scanner] on [r] delivers until [Scan] returns false.
    [float64], the three parsers of [strconv] and the conversion
    [int(f)] belong to the Go library and run time. *)
Context {World Reader float64 : Type}.
Variable scanLines : Reader -> list string.
Variable ParseFloat : string -> float64 * option error.
Variable ParseInt : string -> Z * option error.
Variable ParseBool : string -> bool * option error.
Variable int_of_float64 : float64 -> Z.

(** [DotEnv] represents the DotEnv checker.  A generator returns either an
    error or a reader. *)
Record DotEnv : Type := {
  values : option (gmap string iface);
  gen : World -> error + Reader
}.

Definition NewDotEnv (gen : World -> error + Reader) : DotEnv :=
  {| values := None; gen := gen |}.

(** The body of the loop over [lines]: [h.values[key] = value] when the
    line is not ignored and parses. *)
Definition storeLine (vals : gmap string iface) (fullLine : string)
  : gmap string iface :=
  if negb (isIgnoredLine fullLine)
  then
    let '(key, value, err) := parseLine fullLine in
    match err with
    | None => <[key := IfaceString value]> vals
    | Some _ => vals
    end
  else vals.

(** [Setup] in the world [w]: the receiver afterwards, and the error. *)
Definition Setup (h : DotEnv) (w : World) : DotEnv * option error :=
  match gen h w with
  | inl err => (h, Some err)
  | inr r =>
      let lines := scanLines r in
      ({| values := Some (fold_left storeLine lines ∅); gen := gen h |}, None)
  end.

(** [h.values[name]] with the comma-ok form; a nil map has no key. *)
Definition lookupValues (h : DotEnv) (name : string) : option iface :=
  match values h with
  | Some vals => vals !! name
  | None => None
  end.

Definition value (h : DotEnv) (name : string) : iface * option error :=
  match lookupValues h name with
  | None => (IfaceNil, Some (errors_New "variable does not exist"))
  | Some val => (val, None)
  end.

(** [Int]; [int] is 64 bits wide, so [int(i)] is [i]. *)
Definition Int (h : DotEnv) (name : string) : outcome (Z * option error) :=
  let '(v, err) := value h name in
  match err with
  | Some err => Returns (0%Z, Some err)
  | None =>
      s ← assertString v;
      let '(f, err) := ParseFloat s in
      match err with
      | Some _ =>
          s ← assertString v;
          let '(i, err) := ParseInt s in
          match err with
          | Some _ =>
              n ← assertInt v;
              Returns (n, Some (errors_New (Sprintf_T v +:+ " unable")))
          | None => Returns (i, None)
          end
      | None => Returns (int_of_float64 f, None)
      end
  end.

Definition Bool (h : DotEnv) (name : string) : outcome (bool * option error) :=
  let '(v, err) := value h name in
  match err with
  | Some err => Returns (false, Some err)
  | None =>
      s ← assertString v;
      Returns (ParseBool s)
  end.

Definition String_ (h : DotEnv) (name : string) : outcome (string * option error) :=
  let '(v, err) := value h name in
  match err with
  | Some err => Returns ("", Some err)
  | None =>
      s ← assertString v;
      Returns (s, None)
  end.

(** All three accessors report [name] as missing: the error of [value] and
    the zero value of the result type. *)
Definition reportsMissing (h : DotEnv) (name : string) : Prop :=
  let missing := Some (errors_New "variable does not exist") in
  String_ h name = Returns ("", missing) /\
  Int h name = Returns (0%Z, missing) /\
  Bool h name = Returns (false, missing).

(** The loader states a program can reach: construction, then any number
    of calls of [Setup]. *)
Inductive reachable : DotEnv -> Prop :=
| reach_new gen : reachable (NewDotEnv gen)
| reach_setup h w : reachable h -> reachable (fst (Setup h w)).

(** Every stored value holds a string. *)
Definition allStrings (h : DotEnv) : Prop :=
  forall name v, lookupValues h name = Some v -> exists s, v = IfaceString s.

End Loader.

Arguments DotEnv : clear implicits.

(** ** An instance of the library signature, for closed examples

    [ParseBool] and [ParseInt] follow [strconv.ParseBool] and
    [strconv.ParseInt(s, 10, 64)].  [ParseFloat] covers a fragment of
    [strconv.ParseFloat(s, 64)]: an optional sign and at most fifteen decimal
    digits with an optional point, on which [int(f)] is the integer part of
    the decimal number read; every other string is rejected here. *)
Module Strconv.

Definition ErrSyntax (fn : string) : error := libError fn "invalid syntax".
Definition ErrRange (fn : string) : error := libError fn "value out of range".

Definition ParseBool (s : string) : bool * option error :=
  if bool_decide (s ∈ ["1"; "t"; "T"; "TRUE"; "true"; "True"]) then (true, None)
  else if bool_decide (s ∈ ["0"; "f"; "F"; "FALSE"; "false"; "False"]) then (false, None)
  else (false, Some (ErrSyntax "ParseBool")).

Definition digit (c : ascii) : option Z :=
  let n := nat_of_ascii c in
  if (48 <=? n)%nat && (n <=? 57)%nat then Some (Z.of_nat (n - 48)) else None.

(** The number written by a run of decimal digits, after [acc]. *)
Fixpoint digits (acc : Z) (s : string) : option Z :=
  match s with
  | "" => Some acc
  | String c s' =>
      match digit c with
      | Some d => digits (10 * acc + d) s'
      | None => None
      end
  end.

(** An optional sign and the rest. *)
Definition sign (s : string) : bool * string :=
  match s with
  | String "-" rest => (true, rest)
  | String "+" rest => (false, rest)
  | _ => (false, s)
  end.

Definition ParseInt (s : string) : Z * option error :=
  let '(neg, body) := sign s in
  match body with
  | "" => (0%Z, Some (ErrSyntax "ParseInt"))
  | _ =>
      match digits 0 body with
      | None => (0%Z, Some (ErrSyntax "ParseInt"))
      | Some un =>
          if neg
          then (if (un <=? 2 ^ 63)%Z then ((- un)%Z, None)
                else ((- 2 ^ 63)%Z, Some (ErrRange "ParseInt")))
          else (if (un <? 2 ^ 63)%Z then (un, None)
                else ((2 ^ 63 - 1)%Z, Some (ErrRange "ParseInt")))
      end
  end.

Definition ParseFloat (s : string) : Q * option error :=
  let '(neg, body) := sign s in
  let '(whole, frac) :=
    match cut body "." with
    | Some (whole, frac) => (whole, frac)
    | None => (body, "")
    end in
  match whole, digits 0 (whole +:+ frac) with
  | String _ _, Some m =>
      if (String.length whole + String.length frac <=? 15)%nat
      then
        let q := Qmake m (Z.to_pos (10 ^ Z.of_nat (String.length frac))) in
        (if neg then Qopp q else q, None)
      else (0%Q, Some (ErrSyntax "ParseFloat"))
  | _, _ => (0%Q, Some (ErrSyntax "ParseFloat"))
  end.

(** [int(f)]: truncation towards zero. *)
Definition int_of_float64 (f : Q) : Z := Z.quot (Qnum f) (Zpos (Qden f)).

End Strconv.

(** ** The words of the specification on quoted values

    Strip one leading/trailing quote character of that type: the reading
    under which exactly one quote of the counted type goes from each edge and
    a quote of the other type stays. *)
Module Spec.

Definition stripLeadingByte (q : ascii) (s : string) : string :=
  match s with
  | String c s' => if Ascii.eqb c q then s' else s
  | "" => ""
  end.

Fixpoint stripTrailingByte (q : ascii) (s : string) : string :=
  match s with
  | "" => ""
  | String c "" => if Ascii.eqb c q then "" else s
  | String c s' => String c (stripTrailingByte q s')
  end.

Definition stripOneQuote (q : ascii) (s : string) : string :=
  stripTrailingByte q (stripLeadingByte q s).

Definition unescape (s : string) : string :=
  Replace (Replace s (String backslash (str dquote)) (str dquote))
          (String backslash "n") (str newline).

(** The value the sentence prescribes for a trimmed value [v]. *)
Definition normalizeValue (v : string) : string :=
  if Nat.eqb (Count v dquote) 2 then unescape (stripOneQuote dquote v)
  else if Nat.eqb (Count v squote) 2 then unescape (stripOneQuote squote v)
  else v.

End Spec.

(** ** Vocabulary of the statements *)

(** The cutsets the source passes to [strings.Trim]. *)
Definition whitespace : string := String space (String newline (str tab)).
Definition quotes : string := String dquote (str squote).

(** Every byte of [s] occurs in [cutset]. *)
Fixpoint allOf (cutset s : string) : bool :=
  match s with
  | "" => true
  | String c s' => inCutset cutset c && allOf cutset s'
  end.

Definition firstByte (s : string) : option ascii :=
  match s with
  | "" => None
  | String c _ => Some c
  end.

Fixpoint lastByte (s : string) : option ascii :=
  match s with
  | "" => None
  | String c "" => Some c
  | String _ s' => lastByte s'
  end.

(** [s] neither starts nor ends with a byte of [cutset]. *)
Definition cleanEdges (cutset s : string) : Prop :=
  (forall c, firstByte s = Some c -> inCutset cutset c = false) /\
  (forall c, lastByte s = Some c -> inCutset cutset c = false).

(** What a line contributes to the store: the pair [Setup] inserts, if any. *)
Definition yields (fullLine : string) : option (string * string) :=
  if isIgnoredLine fullLine then None
  else match parseLine fullLine with
       | (key, value, None) => Some (key, value)
       | (_, _, Some _) => None
       end.

(** ** A closed instance: files are lists of lines *)
Module Demo.

(** The world maps a path to the lines of the file there. *)
Definition World : Type := gmap string (list string).
Definition Reader : Type := list string.

Definition scanLines (r : Reader) : list string := r.

Definition os_Open (path : string) (w : World) : error + Reader :=
  match w !! path with
  | Some lines => inr lines
  | None => inl (libError "open" "no such file or directory")
  end.

(** [NewDotEnvFromFile] *)
Definition NewDotEnvFromFile (path : string) : DotEnv World Reader :=
  NewDotEnv (os_Open path).

Definition Setup := Setup (World := World) scanLines.
Definition Int :=
  Int (World := World) (Reader := Reader)
    Strconv.ParseFloat Strconv.ParseInt Strconv.int_of_float64.
Definition Bool := Bool (World := World) (Reader := Reader) Strconv.ParseBool.

(** The scenario of the test: a file [dotenv] in the working directory. *)
Definition scenario : World :=
  {[ "dotenv" := [ "s=hello";
                   "S3_BUCKET=YOURS3BUCKET";
                   "HASH=" +:+ str dquote +:+ "#" +:+ str dquote;
                   "INT=1" ] ]}.

(** A file [env] with a duplicate key, a comment line and a line without
    separator. *)
Definition sample : World :=
  {[ "env" := [ "K=1"; "  # note"; "garbage"; "K=2"; "B=true" ] ]}.

(** A loader holding one value. *)
Definition holding (name v : string) : DotEnv World Reader :=
  {| values := Some {[ name := IfaceString v ]}; gen := os_Open "dotenv" |}.

End Demo.

(** ** The comment loop as a function of the segments

    A segment with exactly one double quote or exactly one single quote
    toggles the quoted region. *)
Definition togglesQuote (segment : string) : bool :=
  Nat.eqb (Count segment dquote) 1 || Nat.eqb (Count segment squote) 1.

(** The segments kept after the first one, from the state [quotesAreOpen]. *)
Fixpoint laterSegments (quotesAreOpen : bool) (segments : list string)
  : list string :=
  match segments with
  | [] => []
  | segment :: rest =>
      (if togglesQuote segment || quotesAreOpen then [segment] else []) ++
      laterSegments (if togglesQuote segment then negb quotesAreOpen else quotesAreOpen) rest
  end.

(** ** Loading from a file *)
Module FromFile.
Section FromFile.
Context {World Reader : Type}.
(** [os.Open(path)] in the world [w]. *)
Variable os_Open : string -> World -> error + Reader.

(** [NewDotEnvFromFile]: the generator opens [path] when it is called. *)
Definition NewDotEnvFromFile (path : string) : DotEnv World Reader :=
  NewDotEnv (os_Open path).

End FromFile.
End FromFile.

(** ** More vocabulary *)

(** The entries the lines insert, in input order. *)
Definition entries (lines : list string) : list (string * iface) :=
  omap (fun line => prod_map id IfaceString <$> yields line) lines.

(** [body] between two quote bytes [q]. *)
Definition quoted (q : ascii) (body : string) : string :=
  str q +:+ body +:+ str q.

(** ** The words of the claims on comments and on ignored lines

    A reading of the sentences character by character: a quote character
    opens a quoted region that the same character closes, a hash outside
    such a region starts the comment; whitespace is any ASCII white space. *)
Module SpecLines.




(** Tab, newline, vertical tab, form feed, carriage return and space. *)
Definition asciiSpace : string :=
  String tab (String newline (String "011" (String "012" (String "013" (str space))))).

(** After trimming white space the line is empty or begins with a hash. *)
Definition ignorable (line : string) : bool :=
  let trimmed := Trim line asciiSpace in
  Nat.eqb (String.length trimmed) 0 || HasPrefix trimmed "#".

End SpecLines.

(** * Properties *)

(** ** Facts about the string functions *)

#[local] Arguments String.append !_ _ : simpl nomatch.

Section StringFacts.
Implicit Types (s p a b : string) (c sep : ascii).

Lemma app_assoc_str a b s : (a +:+ b) +:+ s = a +:+ (b +:+ s).
Proof. induction a as [|x a IH]; simpl; [reflexivity | now rewrite IH]. Qed.

Lemma app_empty_r s : s +:+ "" = s.
Proof. induction s as [|x s IH]; simpl; [reflexivity | now rewrite IH]. Qed.

Lemma Contains_app a b c :
  Contains (a +:+ b) c = Contains a c || Contains b c.
Proof.
  induction a as [|x a IH]; simpl; [reflexivity |].
  destruct (Ascii.eqb x c); [reflexivity | exact IH].
Qed.

Lemma Count_app a b c : Count (a +:+ b) c = Count a c + Count b c.
Proof.
  induction a as [|x a IH]; simpl; [reflexivity |].
  destruct (Ascii.eqb x c); simpl; now rewrite IH.
Qed.

Lemma Split_not_nil s sep : Split s sep <> [].
Proof.
  destruct s as [|x s]; simpl; [discriminate |].
  destruct (Ascii.eqb x sep); [discriminate |].
  destruct (Split s sep); discriminate.
Qed.

(** Text without separator in front of [s] goes to the first segment. *)
Lemma Split_app_clean p s sep :
  Contains p sep = false ->
  Split (p +:+ s) sep =
    match Split s sep with
    | seg :: segs => (p +:+ seg) :: segs
    | [] => [p]
    end.
Proof.
  induction p as [|x p IH]; simpl; intros Hp.
  - destruct (Split s sep) eqn:E; [now apply Split_not_nil in E | reflexivity].
  - destruct (Ascii.eqb x sep); [discriminate |].
    rewrite (IH Hp). destruct (Split s sep); reflexivity.
Qed.

(** A byte of a segment is a byte of the string that was split. *)
Lemma Split_Contains s sep c seg :
  seg ∈ Split s sep -> Contains seg c = true -> Contains s c = true.
Proof.
  revert seg. induction s as [|x s IH]; simpl; intros seg Hin Hc.
  - apply list_elem_of_singleton in Hin. subst. discriminate.
  - destruct (Ascii.eqb x sep) eqn:Ex.
    + apply elem_of_cons in Hin as [-> | Hin]; [discriminate |].
      rewrite (IH _ Hin Hc). now destruct (Ascii.eqb x c).
    + destruct (Split s sep) as [|seg0 segs] eqn:E; [now apply Split_not_nil in E |].
      apply elem_of_cons in Hin as [-> | Hin].
      * simpl in Hc. destruct (Ascii.eqb x c); [reflexivity |].
        apply (IH seg0); [left | exact Hc].
      * destruct (Ascii.eqb x c); [reflexivity |].
        apply (IH seg); [now right | exact Hc].
Qed.

Lemma Join_cons e rest sepstr :
  rest <> [] -> Join (e :: rest) sepstr = e +:+ sepstr +:+ Join rest sepstr.
Proof. destruct rest; [congruence | reflexivity]. Qed.

Lemma Join_app_head p e rest sepstr :
  Join ((p +:+ e) :: rest) sepstr = p +:+ Join (e :: rest) sepstr.
Proof.
  destruct rest as [|e' rest]; simpl; [reflexivity |].
  now rewrite app_assoc_str.
Qed.

(** A byte of a joined string comes from the separator or from an element. *)
Lemma Join_Contains elems sepstr c :
  Contains (Join elems sepstr) c = true ->
  Contains sepstr c = true \/ exists e, e ∈ elems /\ Contains e c = true.
Proof.
  induction elems as [|e rest IH]; [discriminate |].
  destruct rest as [|e' rest].
  - simpl. intros H. right. exists e. split; [left | exact H].
  - rewrite Join_cons by discriminate. rewrite !Contains_app.
    intros H. apply orb_true_iff in H as [H | H].
    + right. exists e. split; [left | exact H].
    + apply orb_true_iff in H as [H | H]; [now left |].
      destruct (IH H) as [Hs | (x & Hx & Hc)]; [now left |].
      right. exists x. split; [now right | exact Hc].
Qed.

Lemma cut_None s sep : Contains s sep = false -> cut s sep = None.
Proof.
  induction s as [|x s IH]; simpl; [reflexivity |].
  destruct (Ascii.eqb x sep); [discriminate |].
  intros H. now rewrite (IH H).
Qed.

Lemma cut_Some s sep before after :
  cut s sep = Some (before, after) ->
  s = before +:+ String sep after /\ Contains before sep = false.
Proof.
  revert before. induction s as [|x s IH]; simpl; intros before; [discriminate |].
  destruct (Ascii.eqb_spec x sep) as [-> | Hne].
  - intros [= <- <-]. split; reflexivity.
  - destruct (cut s sep) as [[b' a']|]; [|discriminate].
    intros [= <- <-]. destruct (IH b' eq_refl) as [-> Hb].
    split; [reflexivity |]. simpl.
    destruct (Ascii.eqb_spec x sep); [contradiction | exact Hb].
Qed.

Lemma cut_app_clean p s sep :
  Contains p sep = false ->
  cut (p +:+ s) sep =
    match cut s sep with
    | Some (before, after) => Some (p +:+ before, after)
    | None => None
    end.
Proof.
  induction p as [|x p IH]; simpl; intros Hp.
  - destruct (cut s sep) as [[? ?]|]; reflexivity.
  - destruct (Ascii.eqb x sep); [discriminate |].
    rewrite (IH Hp). destruct (cut s sep) as [[? ?]|]; reflexivity.
Qed.

Lemma SplitN_2 s sep :
  SplitN s sep 2 =
    match cut s sep with
    | Some (before, after) => [before; after]
    | None => [s]
    end.
Proof. simpl. destruct (cut s sep) as [[? ?]|]; reflexivity. Qed.

Lemma HasPrefix_app s p : HasPrefix (p +:+ s) p = true.
Proof.
  induction p as [|x p IH]; simpl; [reflexivity |].
  now rewrite Ascii.eqb_refl.
Qed.

Lemma HasPrefix_app_l a b p : HasPrefix a p = true -> HasPrefix (a +:+ b) p = true.
Proof.
  revert a. induction p as [|x p IH]; intros a; simpl; [reflexivity |].
  destruct a as [|y a]; simpl; [discriminate |].
  destruct (Ascii.eqb y x); [apply IH | discriminate].
Qed.

(** A prefix that avoids [c] and fits in [a +:+ String c b] fits in [a]. *)
Lemma HasPrefix_before a b c p :
  Contains p c = false ->
  HasPrefix (a +:+ String c b) p = true -> HasPrefix a p = true.
Proof.
  revert a. induction p as [|x p IH]; intros a; simpl; [reflexivity |].
  destruct (Ascii.eqb_spec x c) as [-> | Hxc]; [discriminate |].
  intros Hp. destruct a as [|y a]; simpl.
  - destruct (Ascii.eqb_spec c x) as [-> | _]; [contradiction | discriminate].
  - destruct (Ascii.eqb y x); [now apply IH | discriminate].
Qed.

Lemma drop_app p s : drop (String.length p) (p +:+ s) = s.
Proof. induction p as [|x p IH]; simpl; [now destruct s | exact IH]. Qed.

Lemma TrimPrefix_app p s : TrimPrefix (p +:+ s) p = s.
Proof. unfold TrimPrefix. now rewrite HasPrefix_app, drop_app. Qed.

End StringFacts.

(** ** [strings.Trim] removes exactly the bytes of the cutset at the edges *)

Section TrimFacts.
Implicit Types (s p cutset : string) (c : ascii).

Lemma TrimLeft_allOf_app cutset p s :
  allOf cutset p = true -> TrimLeft (p +:+ s) cutset = TrimLeft s cutset.
Proof.
  induction p as [|x p IH]; simpl; [reflexivity |].
  intros H. apply andb_true_iff in H as [Hx Hp].
  rewrite Hx. exact (IH Hp).
Qed.

Lemma TrimLeft_spec s cutset :
  exists pre,
    s = pre +:+ TrimLeft s cutset /\ allOf cutset pre = true /\
    forall c, firstByte (TrimLeft s cutset) = Some c -> inCutset cutset c = false.
Proof.
  induction s as [|x s (pre & Hs & Hpre & Hfirst)]; simpl.
  - exists "". repeat split. discriminate.
  - destruct (inCutset cutset x) eqn:Hx.
    + exists (String x pre). simpl. rewrite Hx, Hpre, <- Hs. repeat split. exact Hfirst.
    + exists "". repeat split. simpl. now intros c [= <-].
Qed.

Lemma TrimRight_allOf s cutset : allOf cutset s = true -> TrimRight s cutset = "".
Proof.
  induction s as [|x s IH]; simpl; [reflexivity |].
  intros H. apply andb_true_iff in H as [Hx Hs].
  now rewrite (IH Hs), Hx.
Qed.

Lemma TrimRight_spec s cutset :
  exists suf,
    s = TrimRight s cutset +:+ suf /\ allOf cutset suf = true /\
    forall c, lastByte (TrimRight s cutset) = Some c -> inCutset cutset c = false.
Proof.
  induction s as [|x s (suf & Hs & Hsuf & Hlast)]; simpl.
  - exists "". repeat split. discriminate.
  - destruct (TrimRight s cutset) as [|y kept] eqn:E.
    + simpl in Hs. subst suf. destruct (inCutset cutset x) eqn:Hx.
      * exists (String x s). simpl. rewrite Hx, Hsuf.
        repeat split. discriminate.
      * exists s. simpl. repeat split; [exact Hsuf |].
        now intros c [= <-].
    + exists suf. simpl. rewrite Hs at 1. repeat split; [exact Hsuf | exact Hlast].
Qed.

(** Trimming on the right keeps the first byte of what is left. *)
Lemma TrimRight_firstByte s cutset c :
  firstByte (TrimRight s cutset) = Some c -> firstByte s = Some c.
Proof.
  destruct s as [|x s]; simpl; [discriminate |].
  destruct (TrimRight s cutset); [destruct (inCutset cutset x) |];
    simpl; congruence.
Qed.

Lemma TrimRight_keeps_head s cutset c :
  inCutset cutset c = false ->
  exists kept, TrimRight (String c s) cutset = String c kept.
Proof.
  intros Hc. simpl. destruct (TrimRight s cutset) as [|y kept].
  - rewrite Hc. now exists "".
  - now exists (String y kept).
Qed.

Theorem Trim_spec s cutset :
  exists pre suf,
    s = pre +:+ Trim s cutset +:+ suf /\
    allOf cutset pre = true /\ allOf cutset suf = true /\
    cleanEdges cutset (Trim s cutset).
Proof.
  unfold Trim.
  destruct (TrimLeft_spec s cutset) as (pre & Hs & Hpre & Hfirst).
  destruct (TrimRight_spec (TrimLeft s cutset) cutset) as (suf & Ht & Hsuf & Hlast).
  exists pre, suf. rewrite <- Ht, <- Hs. repeat split; try assumption.
  intros c Hc. apply Hfirst. now apply TrimRight_firstByte in Hc.
Qed.

Lemma Trim_allOf_app cutset p s :
  allOf cutset p = true -> Trim (p +:+ s) cutset = Trim s cutset.
Proof. intros H. unfold Trim. now rewrite TrimLeft_allOf_app. Qed.

Lemma Trim_allOf s cutset : allOf cutset s = true -> Trim s cutset = "".
Proof.
  intros H. unfold Trim.
  destruct (TrimLeft_spec s cutset) as (pre & Hs & _ & Hfirst).
  destruct (TrimLeft s cutset) as [|x t] eqn:E; [reflexivity |].
  exfalso. specialize (Hfirst x eq_refl).
  assert (Hall : allOf cutset (pre +:+ String x t) = true) by now rewrite <- Hs.
  clear Hs H E. induction pre as [|y pre IH]; simpl in Hall.
  - now rewrite Hfirst in Hall.
  - apply andb_true_iff in Hall as [_ Hall]. exact (IH Hall).
Qed.

End TrimFacts.

(** ** The comment loop *)

Section CommentLoop.
Implicit Types (segs kept : list string) (line p seg : string).

Lemma keepSegment_first seg :
  keepSegment (false, []) seg = (togglesQuote seg, [seg]).
Proof.
  unfold keepSegment, togglesQuote.
  destruct (Nat.eqb (Count seg dquote) 1 || Nat.eqb (Count seg squote) 1);
    reflexivity.
Qed.

Lemma keepSegment_later quotesAreOpen kept seg :
  kept <> [] ->
  keepSegment (quotesAreOpen, kept) seg =
    (if togglesQuote seg then negb quotesAreOpen else quotesAreOpen,
     kept ++ (if togglesQuote seg || quotesAreOpen then [seg] else [])).
Proof.
  intros Hk. unfold keepSegment, togglesQuote.
  assert (Hlen : Nat.eqb (List.length kept) 0 = false)
    by (destruct kept; [congruence | reflexivity]).
  assert (Hlen' : Nat.eqb (List.length (kept ++ [seg])) 0 = false)
    by (destruct kept; [congruence | reflexivity]).
  destruct (Nat.eqb (Count seg dquote) 1 || Nat.eqb (Count seg squote) 1);
    destruct quotesAreOpen; simpl; rewrite ?Hlen, ?Hlen'; simpl;
    rewrite ?app_nil_r; reflexivity.
Qed.

Lemma keepSegment_fold segs quotesAreOpen kept :
  kept <> [] ->
  snd (fold_left keepSegment segs (quotesAreOpen, kept)) =
    kept ++ laterSegments quotesAreOpen segs.
Proof.
  revert quotesAreOpen kept.
  induction segs as [|seg segs IH]; intros o kept Hk; cbn [fold_left laterSegments].
  - simpl. now rewrite app_nil_r.
  - rewrite keepSegment_later by exact Hk.
    rewrite IH by (destruct kept; [congruence | discriminate]).
    now rewrite <- app_assoc.
Qed.

(** The loop, started as the source starts it. *)
Lemma comment_loop seg segs :
  snd (fold_left keepSegment (seg :: segs) (false, [])) =
    seg :: laterSegments (togglesQuote seg) segs.
Proof.
  cbn [fold_left]. rewrite keepSegment_first.
  now rewrite keepSegment_fold by discriminate.
Qed.

Lemma laterSegments_subset o segs seg :
  seg ∈ laterSegments o segs -> seg ∈ segs.
Proof.
  revert o. induction segs as [|x segs IH]; intros o; simpl.
  - intros H. exact H.
  - intros H. apply elem_of_app in H as [H | H].
    + destruct (togglesQuote x || o); [| now apply elem_of_nil in H].
      apply list_elem_of_singleton in H. subst. left.
    + right. exact (IH _ H).
Qed.

Lemma Split_head line sep :
  exists seg segs rest,
    Split line sep = seg :: segs /\ line = seg +:+ rest /\
    (segs = [] -> rest = "").
Proof.
  induction line as [|x line (seg & segs & rest & HS & Hl & Hr)]; simpl.
  - exists "", [], "". repeat split.
  - destruct (Ascii.eqb x sep).
    + exists "", (Split line sep), (String x line). repeat split.
      intros H. now apply Split_not_nil in H.
    + rewrite HS. exists (String x seg), segs, rest. simpl.
      rewrite <- Hl. repeat split. exact Hr.
Qed.

(** The line without its comments starts with the first segment, and
    continues, if at all, with a hash. *)
Lemma ditchComments_head line :
  exists seg rest more,
    line = seg +:+ rest /\
    (ditchComments line = seg \/
     ditchComments line = seg +:+ String hash more).
Proof.
  unfold ditchComments. destruct (Contains line hash) eqn:Hc.
  - destruct (Split_head line hash) as (seg & segs & rest & HS & Hl & _).
    rewrite HS, comment_loop.
    exists seg, rest, (Join (laterSegments (togglesQuote seg) segs) (str hash)).
    split; [exact Hl |].
    destruct (laterSegments (togglesQuote seg) segs) as [|y l] eqn:E.
    + left. reflexivity.
    + right. rewrite Join_cons by discriminate. reflexivity.
  - exists line, "", "". rewrite app_empty_r. split; [reflexivity | now left].
Qed.

(** Dropping comments adds no byte other than the hashes it puts back. *)
Lemma ditchComments_Contains line c :
  c <> hash ->
  Contains (ditchComments line) c = true -> Contains line c = true.
Proof.
  intros Hne. unfold ditchComments. destruct (Contains line hash); [| auto].
  destruct (Split line hash) as [|seg segs] eqn:HS; [now apply Split_not_nil in HS |].
  rewrite comment_loop. intros H.
  apply Join_Contains in H as [H | (e & He & Hc)].
  - unfold str in H. cbn [Contains] in H.
    destruct (Ascii.eqb_spec hash c) as [E | E]; [congruence | discriminate H].
  - apply (Split_Contains line hash c e); [| exact Hc].
    rewrite HS. apply elem_of_cons in He as [-> | He]; [left |].
    right. exact (laterSegments_subset _ _ _ He).
Qed.

(** Text without hash or quote in front of a line stays in front. *)
Lemma ditchComments_app_clean p line :
  Contains p hash = false ->
  Count p dquote = 0 -> Count p squote = 0 ->
  ditchComments (p +:+ line) = p +:+ ditchComments line.
Proof.
  intros Hh Hd Hs. unfold ditchComments.
  rewrite Contains_app, Hh. simpl.
  destruct (Contains line hash); [| reflexivity].
  rewrite (Split_app_clean p line hash Hh).
  destruct (Split line hash) as [|seg segs] eqn:HS; [now apply Split_not_nil in HS |].
  rewrite !comment_loop.
  assert (Ht : togglesQuote (p +:+ seg) = togglesQuote seg).
  { unfold togglesQuote. now rewrite !Count_app, Hd, Hs. }
  rewrite Ht. apply Join_app_head.
Qed.

End CommentLoop.

(** ** The line parser *)

Section ParseLine.
Implicit Types (line key value : string).

Lemma splitKeyValue_cut line :
  splitKeyValue line =
    match cut line equals with
    | Some (key, value) => [key; value]
    | None =>
        match cut line colon with
        | Some (key, value) => [key; value]
        | None => [line]
        end
    end.
Proof.
  unfold splitKeyValue. rewrite !SplitN_2.
  destruct (cut line equals) as [[? ?]|]; [reflexivity |].
  destruct (cut line colon) as [[? ?]|]; reflexivity.
Qed.

Lemma parseLine_nonempty line :
  line <> "" ->
  parseLine line =
    match splitKeyValue (ditchComments line) with
    | [key; value] => (parseKey key, parseValue value, None)
    | _ => ("", "", Some (errors_New "Can't separate key from value"))
    end.
Proof. destruct line; [congruence | reflexivity]. Qed.

(** A line with neither separator does not parse. *)
Lemma parseLine_no_separator line :
  Contains line equals = false -> Contains line colon = false ->
  snd (parseLine line) <> None.
Proof.
  intros He Hc. destruct line as [|x line]; [discriminate |].
  rewrite parseLine_nonempty by discriminate.
  rewrite splitKeyValue_cut.
  rewrite !cut_None; [discriminate | |].
  - destruct (Contains (ditchComments (String x line)) colon) eqn:E; [| reflexivity].
    apply ditchComments_Contains in E; [congruence | discriminate].
  - destruct (Contains (ditchComments (String x line)) equals) eqn:E; [| reflexivity].
    apply ditchComments_Contains in E; [congruence | discriminate].
Qed.

Lemma parseValue_quoted value :
  Count (Trim value " ") dquote = 2 \/ Count (Trim value " ") squote = 2 ->
  parseValue value = Spec.unescape (Trim (Trim value " ") quotes).
Proof.
  intros H. unfold parseValue.
  destruct H as [-> | ->]; [reflexivity |].
  now rewrite orb_true_r.
Qed.

Lemma parseKey_export key : parseKey ("export" +:+ key) = Trim key " ".
Proof. unfold parseKey. now rewrite HasPrefix_app, TrimPrefix_app. Qed.

Lemma parseKey_plain key :
  HasPrefix key "export" = false -> parseKey key = Trim key " ".
Proof. intros H. unfold parseKey. now rewrite H. Qed.

Lemma ditchComments_HasPrefix line p :
  Contains p hash = false ->
  HasPrefix line p = false -> HasPrefix (ditchComments line) p = false.
Proof.
  intros Hp Hl.
  destruct (ditchComments_head line) as (seg & rest & more & -> & [-> | ->]);
    destruct (HasPrefix _ p) eqn:E in |- *; try reflexivity.
  - now rewrite (HasPrefix_app_l _ rest _ E) in Hl.
  - apply HasPrefix_before in E; [| exact Hp].
    now rewrite (HasPrefix_app_l _ rest _ E) in Hl.
Qed.

Lemma cut_HasPrefix line sep key value p :
  cut line sep = Some (key, value) ->
  HasPrefix line p = false -> HasPrefix key p = false.
Proof.
  intros Hc Hl. apply cut_Some in Hc as [-> _].
  destruct (HasPrefix key p) eqn:E; [| reflexivity].
  now rewrite (HasPrefix_app_l _ _ _ E) in Hl.
Qed.

(** [export ] in front of a line that does not itself start with
    [export] changes nothing. *)
Lemma parseLine_export line :
  line <> "" -> HasPrefix line "export" = false ->
  parseLine ("export " +:+ line) = parseLine line.
Proof.
  intros Hne Hl.
  rewrite (parseLine_nonempty line Hne).
  rewrite parseLine_nonempty by discriminate.
  rewrite ditchComments_app_clean by reflexivity.
  pose proof (ditchComments_HasPrefix line "export" eq_refl Hl) as HD.
  rewrite !splitKeyValue_cut.
  rewrite !(cut_app_clean "export ") by reflexivity.
  assert (Hkey : forall key, HasPrefix key "export" = false ->
                   parseKey ("export " +:+ key) = parseKey key).
  { intros key Hk. rewrite (parseKey_plain key Hk).
    change ("export " +:+ key) with ("export" +:+ " " +:+ key).
    rewrite parseKey_export. now apply Trim_allOf_app. }
  destruct (cut (ditchComments line) equals) as [[key value]|] eqn:Ee.
  - now rewrite (Hkey key (cut_HasPrefix _ _ _ _ _ Ee HD)).
  - destruct (cut (ditchComments line) colon) as [[key value]|] eqn:Ec.
    + now rewrite (Hkey key (cut_HasPrefix _ _ _ _ _ Ec HD)).
    + reflexivity.
Qed.

Lemma HasPrefix_key_line key value p :
  Contains p equals = false ->
  HasPrefix key p = false -> HasPrefix (key +:+ "=" +:+ value) p = false.
Proof.
  intros Hp Hk. destruct (HasPrefix (key +:+ "=" +:+ value) p) eqn:E; [| reflexivity].
  apply (HasPrefix_before key value equals p Hp) in E. congruence.
Qed.

(** A trailing comment without quotes is dropped. *)
Lemma trailing_comment_dropped body comment :
  Contains body hash = false -> togglesQuote body = false ->
  Contains comment hash = false -> togglesQuote comment = false ->
  ditchComments (body +:+ String hash comment) = body.
Proof.
  intros Hb Hbq Hc Hcq. unfold ditchComments.
  rewrite Contains_app. cbn [Contains]. rewrite Ascii.eqb_refl, orb_true_r.
  rewrite (Split_app_clean body _ hash Hb). cbn [Split]. rewrite Ascii.eqb_refl.
  assert (HS : Split comment hash = [comment]).
  { clear Hcq. induction comment as [|x s IH]; [reflexivity |]. simpl in *.
    destruct (Ascii.eqb x hash); [discriminate |]. now rewrite (IH Hc). }
  rewrite HS, app_empty_r, comment_loop. cbn [laterSegments].
  rewrite Hbq, Hcq. reflexivity.
Qed.

(** A hash between an opening and a closing quote is kept. *)
Lemma quoted_hash_kept before after :
  Contains before hash = false -> togglesQuote before = true ->
  Contains after hash = false -> togglesQuote after = true ->
  ditchComments (before +:+ String hash after) = before +:+ String hash after.
Proof.
  intros Hb Hbq Ha Haq. unfold ditchComments.
  rewrite Contains_app. cbn [Contains]. rewrite Ascii.eqb_refl, orb_true_r.
  rewrite (Split_app_clean before _ hash Hb). cbn [Split]. rewrite Ascii.eqb_refl.
  assert (HS : Split after hash = [after]).
  { clear Haq. induction after as [|x s IH]; [reflexivity |]. simpl in *.
    destruct (Ascii.eqb x hash); [discriminate |]. now rewrite (IH Ha). }
  rewrite HS, app_empty_r, comment_loop. cbn [laterSegments].
  rewrite Hbq, Haq. reflexivity.
Qed.

(** A line whose first byte is neither whitespace nor a hash is not
    ignored. *)
Lemma isIgnoredLine_head c line :
  inCutset whitespace c = false -> c <> hash ->
  isIgnoredLine (String c line) = false.
Proof.
  intros Hws Hh. unfold isIgnoredLine. fold whitespace. unfold Trim.
  cbn [TrimLeft]. rewrite Hws.
  destruct (TrimRight_keeps_head line whitespace c Hws) as (kept & ->).
  cbn. destruct (Ascii.eqb_spec c "#"); [contradiction | reflexivity].
Qed.

End ParseLine.

(** ** Claims about the line parser *)

(** C2, as stated, fails on the line made of [K=], a double quote, ['a'] and
    a double quote: its trimmed value has exactly two double quotes, so one
    double quote would go from each edge and the single quotes would stay,
    giving ['a']; the parser stores [a]. *)
Lemma quoted_value_one_quote_per_edge_fails :
  let trimmed := str dquote +:+ "'a'" +:+ str dquote in
  let line := "K=" +:+ trimmed in
  splitKeyValue (ditchComments line) = ["K"; trimmed] /\
  Count (Trim trimmed " ") dquote = 2 /\
  Spec.normalizeValue (Trim trimmed " ") = "'a'" /\
  parseLine line = ("K", "a", None) /\
  snd (fst (parseLine line)) <> Spec.normalizeValue (Trim trimmed " ").
Proof. repeat split. discriminate. Qed.

(** C2 (amended): for every line that parses and whose trimmed value [t] has
    exactly two double quotes or exactly two single quotes, the stored value
    is [t] without all the leading and all the trailing quote characters of
    either type ([t = pre ++ core ++ suf], [pre] and [suf] made of quote
    characters, [core] with no quote character at either edge), in which
    every backslash-doublequote is then replaced by a double quote and every
    backslash-n by a newline. *)
Theorem quoted_value_normalization (line rawKey rawValue : string) :
  splitKeyValue (ditchComments line) = [rawKey; rawValue] ->
  Count (Trim rawValue " ") dquote = 2 \/ Count (Trim rawValue " ") squote = 2 ->
  exists pre core suf,
    Trim rawValue " " = pre +:+ core +:+ suf /\
    allOf quotes pre = true /\ allOf quotes suf = true /\
    cleanEdges quotes core /\
    core = Trim (Trim rawValue " ") quotes /\
    parseLine line = (parseKey rawKey, Spec.unescape core, None).
Proof.
  intros Hsplit Hcount.
  assert (Hne : line <> "") by (intros ->; discriminate Hsplit).
  destruct (Trim_spec (Trim rawValue " ") quotes) as (pre & suf & Ht & Hpre & Hsuf & Hclean).
  exists pre, (Trim (Trim rawValue " ") quotes), suf.
  repeat split; try assumption; try apply Hclean.
  rewrite (parseLine_nonempty line Hne), Hsplit.
  now rewrite (parseValue_quoted rawValue Hcount).
Qed.

Lemma quoted_value_normalization_witness :
  let trimmed := str dquote +:+ "'a'" +:+ str dquote in
  exists pre core suf,
    Trim trimmed " " = pre +:+ core +:+ suf /\
    allOf quotes pre = true /\ allOf quotes suf = true /\
    cleanEdges quotes core /\
    core = Trim (Trim trimmed " ") quotes /\
    parseLine ("K=" +:+ trimmed) = (parseKey "K", Spec.unescape core, None).
Proof.
  apply (quoted_value_normalization
           ("K=" +:+ str dquote +:+ "'a'" +:+ str dquote) "K"
           (str dquote +:+ "'a'" +:+ str dquote)).
  - reflexivity.
  - left. reflexivity.
Defined.

(** C3: the line [KEY=] followed by the double-quoted text [a], backslash,
    double quote, [b] has three double quotes and no single quote, so the
    quoted-value branch is not taken and the value is stored as written,
    quotes and backslash included, not as [a], double quote, [b]; the line
    [KEY=] followed by the double-quoted text [line1\nline2] is stored with a
    newline between [line1] and [line2]. *)
Theorem escaped_quote_line_stored_verbatim :
  let written :=
    str dquote +:+ "a" +:+ str backslash +:+ str dquote +:+ "b" +:+ str dquote in
  Count written dquote = 3 /\
  yields ("KEY=" +:+ written) = Some ("KEY", written) /\
  storeLine ∅ ("KEY=" +:+ written) !! "KEY" = Some (IfaceString written) /\
  written <> "a" +:+ str dquote +:+ "b" /\
  yields ("KEY=" +:+ str dquote +:+ "line1\nline2" +:+ str dquote) =
    Some ("KEY", "line1" +:+ str newline +:+ "line2").
Proof. repeat split. discriminate. Qed.

(** C6, as stated, fails for the key [exportFOO]: [export exportFOO=1] is
    stored under [exportFOO], and [exportFOO=1] under [FOO]. *)
Lemma export_line_differs_for_exportFOO :
  let key := "exportFOO" in
  let value := "1" in
  yields ("export " +:+ key +:+ "=" +:+ value) = Some ("exportFOO", "1") /\
  yields (key +:+ "=" +:+ value) = Some ("FOO", "1") /\
  yields ("export " +:+ key +:+ "=" +:+ value) <> yields (key +:+ "=" +:+ value).
Proof. repeat split. discriminate. Qed.

(** C6 (amended): for every key that does not itself begin with [export] and
    every value such that [KEY=value] is not an ignored line, the lines
    [export KEY=value] and [KEY=value] parse alike and store the same key
    and the same value; the prefix [export] is removed literally, once and
    with no word-boundary check, so [exportFOO=1] is stored under [FOO]. *)
Theorem export_prefix_same_entry (key value : string) :
  HasPrefix key "export" = false ->
  isIgnoredLine (key +:+ "=" +:+ value) = false ->
  parseLine ("export " +:+ key +:+ "=" +:+ value) = parseLine (key +:+ "=" +:+ value) /\
  yields ("export " +:+ key +:+ "=" +:+ value) = yields (key +:+ "=" +:+ value) /\
  (forall rest, parseKey ("export" +:+ rest) = Trim rest " ") /\
  yields "exportFOO=1" = Some ("FOO", "1").
Proof.
  intros Hkey Hignored.
  assert (Hparse : parseLine ("export " +:+ key +:+ "=" +:+ value)
                   = parseLine (key +:+ "=" +:+ value)).
  { apply parseLine_export.
    - destruct key; discriminate.
    - now apply HasPrefix_key_line. }
  repeat split.
  - exact Hparse.
  - unfold yields. rewrite Hparse, Hignored.
    change ("export " +:+ key +:+ "=" +:+ value)
      with (String "e" ("xport " +:+ key +:+ "=" +:+ value)).
    now rewrite isIgnoredLine_head.
Qed.

Lemma export_prefix_same_entry_witness :
  parseLine ("export " +:+ "KEY" +:+ "=" +:+ "value") = parseLine ("KEY" +:+ "=" +:+ "value") /\
  yields ("export " +:+ "KEY" +:+ "=" +:+ "value") = yields ("KEY" +:+ "=" +:+ "value") /\
  (forall rest, parseKey ("export" +:+ rest) = Trim rest " ") /\
  yields "exportFOO=1" = Some ("FOO", "1").
Proof. apply (export_prefix_same_entry "KEY" "value"); reflexivity. Defined.

(** ** The store built by [Setup] *)

Section StoreFacts.
Implicit Types (vals : gmap string iface) (line key value : string)
  (lines before after : list string).

Lemma storeLine_yields vals line :
  storeLine vals line =
    match yields line with
    | Some (key, value) => <[key := IfaceString value]> vals
    | None => vals
    end.
Proof.
  unfold storeLine, yields. destruct (isIgnoredLine line); [reflexivity |].
  destruct (parseLine line) as [[key value] [err|]]; reflexivity.
Qed.

Lemma yields_ignored line : isIgnoredLine line = true -> yields line = None.
Proof. intros H. unfold yields. now rewrite H. Qed.

Lemma yields_no_separator line :
  Contains line equals = false -> Contains line colon = false ->
  yields line = None.
Proof.
  intros He Hc. unfold yields. destruct (isIgnoredLine line); [reflexivity |].
  pose proof (parseLine_no_separator line He Hc) as H.
  destruct (parseLine line) as [[key value] [err|]]; [reflexivity | now elim H].
Qed.

(** A line that yields nothing can be taken out of the input. *)
Lemma fold_storeLine_skip before line after vals :
  yields line = None ->
  fold_left storeLine (before ++ line :: after) vals =
  fold_left storeLine (before ++ after) vals.
Proof.
  intros H. rewrite !fold_left_app. cbn [fold_left].
  now rewrite (storeLine_yields _ line), H.
Qed.

(** Lines that do not yield [key] leave its entry alone. *)
Lemma fold_storeLine_other after vals key :
  (forall line, line ∈ after -> fst <$> yields line <> Some key) ->
  fold_left storeLine after vals !! key = vals !! key.
Proof.
  revert vals. induction after as [|l after IH]; intros vals Hafter; [reflexivity |].
  cbn [fold_left]. rewrite IH by (intros line Hin; apply Hafter; now right).
  rewrite storeLine_yields.
  pose proof (Hafter l ltac:(left)) as Hl.
  destruct (yields l) as [[k v]|]; [| reflexivity].
  apply lookup_insert_ne. intros ->. now apply Hl.
Qed.

(** The entry of a key is the one of the last line that yields it. *)
Lemma fold_storeLine_last before line after vals key value :
  yields line = Some (key, value) ->
  (forall l, l ∈ after -> fst <$> yields l <> Some key) ->
  fold_left storeLine (before ++ line :: after) vals !! key
    = Some (IfaceString value).
Proof.
  intros Hline Hafter. rewrite fold_left_app. cbn [fold_left].
  rewrite (fold_storeLine_other after _ key Hafter).
  rewrite storeLine_yields, Hline. apply lookup_insert_eq.
Qed.

(** Only strings are inserted. *)
Lemma fold_storeLine_strings lines vals :
  (forall name v, vals !! name = Some v -> exists s, v = IfaceString s) ->
  forall name v,
    fold_left storeLine lines vals !! name = Some v -> exists s, v = IfaceString s.
Proof.
  revert vals. induction lines as [|l lines IH]; intros vals Hvals; [exact Hvals |].
  cbn [fold_left]. apply IH. intros name v. rewrite storeLine_yields.
  destruct (yields l) as [[k x]|]; [| apply Hvals].
  destruct (decide (k = name)) as [-> | Hne].
  - rewrite lookup_insert_eq. intros [= <-]. now exists x.
  - rewrite lookup_insert_ne by exact Hne. apply Hvals.
Qed.

(** The lines the filter lets through, in the words of the specification:
    whitespace only, or whitespace and then a hash. *)
Lemma isIgnoredLine_spec ws rest line :
  allOf whitespace ws = true ->
  line = ws \/ line = ws +:+ String hash rest ->
  isIgnoredLine line = true.
Proof.
  intros Hws [-> | ->]; unfold isIgnoredLine; fold whitespace.
  - now rewrite (Trim_allOf ws whitespace Hws).
  - rewrite (Trim_allOf_app whitespace ws _ Hws). unfold Trim.
    cbn [TrimLeft]. change (inCutset whitespace hash) with false. cbn iota.
    destruct (TrimRight_keeps_head rest whitespace hash eq_refl) as (kept & ->).
    reflexivity.
Qed.

(** A string made of bytes of the cutset contains no byte outside it. *)
Lemma allOf_Contains cutset (s : string) c :
  allOf cutset s = true -> inCutset cutset c = false -> Contains s c = false.
Proof.
  intros Hall Hc. induction s as [|x s IH]; [reflexivity |].
  cbn [allOf] in Hall. apply andb_true_iff in Hall as [Hx Hs]. cbn [Contains].
  destruct (Ascii.eqb_spec x c) as [-> | _]; [congruence | exact (IH Hs)].
Qed.

(** A line of white space only has no separator and yields nothing. *)
Lemma yields_asciiSpace line :
  allOf SpecLines.asciiSpace line = true -> yields line = None.
Proof.
  intros H. apply yields_no_separator.
  - exact (allOf_Contains _ line equals H eq_refl).
  - exact (allOf_Contains _ line colon H eq_refl).
Qed.

End StoreFacts.

(** ** Claims about [Setup] and the accessors *)

Section LoaderFacts.
Context {World Reader float64 : Type}.
Variable scanLines : Reader -> list string.
Variable ParseFloat : string -> float64 * option error.
Variable ParseInt : string -> Z * option error.
Variable ParseBool : string -> bool * option error.
Variable int_of_float64 : float64 -> Z.

Implicit Types (h : DotEnv World Reader) (w : World) (r : Reader)
  (name : string).

Lemma Setup_ok h w r :
  gen h w = inr r ->
  Setup scanLines h w =
    ({| values := Some (fold_left storeLine (scanLines r) ∅); gen := gen h |}, None).
Proof. intros H. unfold Setup. now rewrite H. Qed.

Lemma Setup_failed h w err :
  gen h w = inl err -> Setup scanLines h w = (h, Some err).
Proof. intros H. unfold Setup. now rewrite H. Qed.

Lemma missing_reported h name :
  lookupValues h name = None ->
  reportsMissing ParseFloat ParseInt ParseBool int_of_float64 h name.
Proof.
  intros H. unfold reportsMissing, String_, Int, Bool, value.
  rewrite H. repeat split.
Qed.

Lemma reachable_allStrings h : reachable scanLines h -> allStrings h.
Proof.
  induction 1 as [g | h w Hh IH].
  - intros name v. discriminate.
  - unfold Setup. destruct (gen h w) as [err | r]; [exact IH |].
    intros name v. unfold lookupValues. cbn [fst values].
    apply fold_storeLine_strings. intros k x. now rewrite lookup_empty.
Qed.

Lemma String_stored h name s :
  lookupValues h name = Some (IfaceString s) ->
  String_ h name = Returns (s, None).
Proof. intros H. unfold String_, value. now rewrite H. Qed.

Lemma Bool_stored h name s :
  lookupValues h name = Some (IfaceString s) ->
  Bool ParseBool h name = Returns (ParseBool s).
Proof. intros H. unfold Bool, value. now rewrite H. Qed.

(** [Int] on a stored string: the float parse, then the integer parse,
    then the assertion [v.(int)] on the string. *)
Lemma Int_stored h name s :
  lookupValues h name = Some (IfaceString s) ->
  Int ParseFloat ParseInt int_of_float64 h name =
    match ParseFloat s with
    | (f, None) => Returns (int_of_float64 f, None)
    | (_, Some _) =>
        match ParseInt s with
        | (i, None) => Returns (i, None)
        | (_, Some _) => Panics (InterfaceConversion TString TInt)
        end
    end.
Proof.
  intros H. unfold Int, value. rewrite H. cbn.
  destruct (ParseFloat s) as [f [e1|]]; [| reflexivity].
  destruct (ParseInt s) as [i [e2|]]; reflexivity.
Qed.

End LoaderFacts.

Section LoaderClaims.
Context {World Reader float64 : Type}.
Variable scanLines : Reader -> list string.
Variable ParseFloat : string -> float64 * option error.
Variable ParseInt : string -> Z * option error.
Variable ParseBool : string -> bool * option error.
Variable int_of_float64 : float64 -> Z.

Implicit Types (h : DotEnv World Reader) (w : World) (r : Reader)
  (name line key value : string) (before after : list string).

Local Abbreviation Setup := (Setup scanLines).
Local Abbreviation Int := (Int ParseFloat ParseInt int_of_float64).
Local Abbreviation Bool := (Bool ParseBool).
Local Abbreviation reportsMissing :=
  (reportsMissing ParseFloat ParseInt ParseBool int_of_float64).
Local Abbreviation reachable := (reachable scanLines).

(** C5, as stated, fails on a line that starts with a carriage return: the
    filter trims spaces, newlines and tabs only, so the line made of a
    carriage return and [# don't set K=1] is not ignored, its apostrophe
    keeps the text after the hash, and a key is stored. *)
Lemma carriage_return_comment_is_stored :
  let line := String "013" "# don't set K=1" in
  SpecLines.ignorable line = true /\
  isIgnoredLine line = false /\
  yields line = Some (String "013" "# don't set K", "1") /\
  storeLine ∅ line <> ∅.
Proof.
  repeat split. intros H.
  assert (Hlookup : storeLine ∅ (String "013" "# don't set K=1")
                      !! String "013" "# don't set K" = Some (IfaceString "1"))
    by reflexivity.
  rewrite H in Hlookup. discriminate Hlookup.
Qed.

(** C5 (amended): a line made of white space only (spaces, tabs, newlines,
    carriage returns, vertical tabs, form feeds), and a line that begins
    with a hash once its leading spaces, newlines and tabs are trimmed (the
    characters the filter trims), stores no key: [Setup] builds the store of
    the input without that line. *)
Theorem ignorable_line_stores_no_key (ws rest line : string) h w r before after :
  allOf SpecLines.asciiSpace line = true \/
  (allOf whitespace ws = true /\ line = ws +:+ String hash rest) ->
  gen h w = inr r ->
  scanLines r = before ++ line :: after ->
  yields line = None /\
  (forall vals, storeLine vals line = vals) /\
  Setup h w =
    ({| values := Some (fold_left storeLine (before ++ after) ∅); gen := gen h |}, None).
Proof.
  intros Hline Hgen Hscan.
  assert (Hy : yields line = None).
  { destruct Hline as [Hblank | [Hws ->]].
    - now apply yields_asciiSpace.
    - apply yields_ignored. apply (isIgnoredLine_spec ws rest); [exact Hws | now right]. }
  repeat split; try assumption.
  - intros vals. now rewrite storeLine_yields, Hy.
  - rewrite (Setup_ok scanLines h w r Hgen), Hscan.
    now rewrite (fold_storeLine_skip before line after ∅ Hy).
Qed.

(** C7: when several lines of the input yield the same key, the store after
    [Setup] maps the key to the value of the last of them, and the store
    holds each key once. *)
Theorem last_occurrence_wins h w r before line after key value :
  gen h w = inr r ->
  scanLines r = before ++ line :: after ->
  yields line = Some (key, value) ->
  (forall l, l ∈ after -> fst <$> yields l <> Some key) ->
  lookupValues (fst (Setup h w)) key = Some (IfaceString value) /\
  String_ (fst (Setup h w)) key = Returns (value, None) /\
  exists vals,
    values (fst (Setup h w)) = Some vals /\
    NoDup (fst <$> map_to_list vals) /\
    forall v, (key, v) ∈ map_to_list vals -> v = IfaceString value.
Proof.
  intros Hgen Hscan Hline Hafter.
  rewrite (Setup_ok scanLines h w r Hgen), Hscan. cbn [fst].
  pose proof (fold_storeLine_last before line after ∅ key value Hline Hafter) as Hl.
  assert (Hlookup : lookupValues
            {| values := Some (fold_left storeLine (before ++ line :: after) ∅);
               gen := gen h |} key = Some (IfaceString value)) by exact Hl.
  split; [exact Hlookup |]. split.
  - now apply String_stored.
  - eexists. split; [reflexivity |]. split; [apply NoDup_fst_map_to_list |].
    intros v Hv. apply elem_of_map_to_list in Hv. congruence.
Qed.

(** C8: [Setup] returns an error exactly when the generator fails, and then
    that error; when the generator succeeds [Setup] returns nil, also when
    a line contains neither [=] nor [:], and such a line is not stored. *)
Theorem Setup_fails_only_with_generator h w :
  (forall err, snd (Setup h w) = Some err <-> gen h w = inl err) /\
  (snd (Setup h w) = None <-> exists r, gen h w = inr r) /\
  (forall r before line after,
      gen h w = inr r ->
      scanLines r = before ++ line :: after ->
      Contains line equals = false -> Contains line colon = false ->
      snd (parseLine line) <> None /\
      (forall vals, storeLine vals line = vals) /\
      Setup h w =
        ({| values := Some (fold_left storeLine (before ++ after) ∅);
            gen := gen h |}, None)).
Proof.
  split; [| split].
  - intros err. destruct (gen h w) as [e | r] eqn:Hgen.
    + rewrite (Setup_failed scanLines h w e Hgen). cbn [snd]. split; congruence.
    + rewrite (Setup_ok scanLines h w r Hgen). cbn [snd]. split; discriminate.
  - destruct (gen h w) as [e | r] eqn:Hgen.
    + rewrite (Setup_failed scanLines h w e Hgen). cbn [snd].
      split; [discriminate | intros (r & Hr); discriminate].
    + rewrite (Setup_ok scanLines h w r Hgen). cbn [snd].
      split; [eauto | reflexivity].
  - intros r before line after Hgen Hscan He Hc.
    pose proof (yields_no_separator line He Hc) as Hy.
    split; [now apply parseLine_no_separator |]. split.
    + intros vals. now rewrite storeLine_yields, Hy.
    + rewrite (Setup_ok scanLines h w r Hgen), Hscan.
      now rewrite (fold_storeLine_skip before line after ∅ Hy).
Qed.

(** C9 (amended): for a key that is not in the store, [String], [Int] and
    [Bool] return the error of [value] with the zero value (the empty
    string, [0], [false]); this is so for every key of a loader that has not
    completed a successful [Setup] (its map is nil) and whose [Setup] failed
    with the generator's error.  A failed [Setup] leaves the store as it
    was. *)
Theorem missing_key_is_an_error :
  (forall h name, lookupValues h name = None -> reportsMissing h name) /\
  (forall h w err name,
      values h = None -> gen h w = inl err ->
      snd (Setup h w) = Some err /\
      lookupValues (fst (Setup h w)) name = None /\
      reportsMissing (fst (Setup h w)) name) /\
  (forall h w err, gen h w = inl err -> Setup h w = (h, Some err)).
Proof.
  split; [apply missing_reported |]. split; [| apply Setup_failed].
  intros h w err name Hnil Hgen. rewrite (Setup_failed scanLines h w err Hgen). cbn [fst snd].
  assert (Hmiss : lookupValues h name = None) by (unfold lookupValues; now rewrite Hnil).
  split; [reflexivity |]. split; [exact Hmiss |]. now apply missing_reported.
Qed.

(** C10: every value [Setup] inserts is a string, in every state a loader
    can reach; so for a key in the store the assertion [v.(string)]
    succeeds: [String] and [Bool] do not panic, and if [Int] panics it is
    on [v.(int)], after both parse calls received the string. *)
Theorem stored_values_are_strings h :
  reachable h ->
  allStrings h /\
  (forall vals line name v,
      (forall k x, vals !! k = Some x -> exists s, x = IfaceString s) ->
      storeLine vals line !! name = Some v -> exists s, v = IfaceString s) /\
  forall name v,
    lookupValues h name = Some v ->
    exists s,
      v = IfaceString s /\
      assertString v = Returns s /\
      String_ h name = Returns (s, None) /\
      Bool h name = Returns (ParseBool s) /\
      forall p, Int h name = Panics p -> p = InterfaceConversion TString TInt.
Proof.
  intros Hreach. pose proof (reachable_allStrings scanLines h Hreach) as Hall.
  split; [exact Hall |]. split.
  - intros vals line name v Hvals.
    exact (fold_storeLine_strings [line] vals Hvals name v).
  - intros name v Hv. destruct (Hall name v Hv) as (s & ->).
    exists s. repeat split.
    + now apply String_stored.
    + now apply Bool_stored.
    + intros p. rewrite (Int_stored _ _ _ h name s Hv).
      destruct (ParseFloat s) as [f [e1|]]; [| discriminate].
      destruct (ParseInt s) as [i [e2|]]; [| discriminate].
      now intros [= <-].
Qed.

(** C1: when the stored string fails both [ParseFloat] and [ParseInt], [Int]
    does not return its error: evaluating [v.(int)] on the stored string
    panics first. *)
Theorem Int_panics_when_both_parses_fail h name s f e1 i e2 :
  lookupValues h name = Some (IfaceString s) ->
  ParseFloat s = (f, Some e1) ->
  ParseInt s = (i, Some e2) ->
  Int h name = Panics (InterfaceConversion TString TInt).
Proof.
  intros Hv Hf Hi. rewrite (Int_stored _ _ _ h name s Hv).
  now rewrite Hf, Hi.
Qed.

End LoaderClaims.

(** * Further properties *)

(** ** More facts about the string functions *)

Section MoreStringFacts.
Implicit Types (s p q cutset old new : string) (c sep : ascii).

Lemma cut_None_inv s sep : cut s sep = None -> Contains s sep = false.
Proof.
  induction s as [|x s IH]; simpl; [reflexivity |].
  destruct (Ascii.eqb x sep); [discriminate |].
  destruct (cut s sep) as [[? ?]|]; [discriminate | exact IH].
Qed.

Lemma Contains_false_Count s c : Contains s c = false -> Count s c = 0.
Proof.
  induction s as [|x s IH]; simpl; [reflexivity |].
  destruct (Ascii.eqb x c); [discriminate | exact IH].
Qed.

Lemma allOf_app cutset p q :
  allOf cutset (p +:+ q) = allOf cutset p && allOf cutset q.
Proof.
  induction p as [|x p IH]; simpl; [reflexivity |].
  now rewrite IH, andb_assoc.
Qed.

Lemma Contains_Trim s cutset c :
  Contains (Trim s cutset) c = true -> Contains s c = true.
Proof.
  intros H. destruct (Trim_spec s cutset) as (pre & suf & Hs & _).
  rewrite Hs, !Contains_app, H. now rewrite orb_true_r.
Qed.

Lemma Contains_drop n s c : Contains (drop n s) c = true -> Contains s c = true.
Proof.
  revert s. induction n as [|n IH]; intros s; [now destruct s |].
  destruct s as [|x s]; [discriminate |]. simpl. intros H.
  rewrite (IH s H). now destruct (Ascii.eqb x c).
Qed.

Lemma TrimRight_app_allOf s q cutset :
  allOf cutset q = true -> TrimRight (s +:+ q) cutset = TrimRight s cutset.
Proof.
  intros Hq. induction s as [|x s IH]; simpl.
  - now apply TrimRight_allOf.
  - now rewrite IH.
Qed.

Lemma TrimLeft_clean s cutset :
  (forall c, firstByte s = Some c -> inCutset cutset c = false) ->
  TrimLeft s cutset = s.
Proof.
  destruct s as [|x s]; simpl; [reflexivity |].
  intros H. now rewrite (H x eq_refl).
Qed.

Lemma TrimRight_clean s cutset :
  (forall c, lastByte s = Some c -> inCutset cutset c = false) ->
  TrimRight s cutset = s.
Proof.
  induction s as [|x s IH]; [reflexivity |].
  intros H. cbn [TrimRight]. destruct s as [|y s].
  - simpl. now rewrite (H x eq_refl).
  - rewrite IH by exact H. reflexivity.
Qed.

Lemma Trim_clean s cutset : cleanEdges cutset s -> Trim s cutset = s.
Proof.
  intros [Hfirst Hlast]. unfold Trim.
  rewrite (TrimLeft_clean s cutset Hfirst). now apply TrimRight_clean.
Qed.

(** Splitting and joining with the same separator gives the string back. *)
Lemma Join_Split s sep : Join (Split s sep) (str sep) = s.
Proof.
  induction s as [|x s IH]; [reflexivity |]. cbn [Split].
  destruct (Ascii.eqb_spec x sep) as [-> | Hne].
  - rewrite Join_cons by apply Split_not_nil. now rewrite IH.
  - destruct (Split s sep) as [|seg segs] eqn:E; [now apply Split_not_nil in E |].
    rewrite <- IH. destruct segs; reflexivity.
Qed.

(** No occurrence of [old] starts where its first byte does not occur. *)
Lemma Replace_absent s c old new :
  Contains s c = false -> Replace s (String c old) new = s.
Proof.
  unfold Replace. induction s as [|x s IH]; [reflexivity |].
  cbn [Contains replaceFrom HasPrefix].
  destruct (Ascii.eqb x c); [discriminate |].
  intros H. now rewrite (IH H).
Qed.

(** Trimming on the right never cuts before a byte outside the cutset. *)
Lemma TrimRight_app_kept p c s cutset :
  inCutset cutset c = false ->
  TrimRight (p +:+ String c s) cutset = p +:+ TrimRight (String c s) cutset.
Proof.
  intros Hc. destruct (TrimRight_keeps_head s cutset c Hc) as (kept & Hk).
  rewrite Hk. induction p as [|x p IH]; [exact Hk |].
  simpl. rewrite IH. now destruct p.
Qed.

End MoreStringFacts.

(** ** More about the comment loop and the split *)

Section MoreParseFacts.
Implicit Types (line key value body comment p : string) (q c : ascii)
  (segs : list string).

Lemma ditchComments_no_hash line :
  Contains line hash = false -> ditchComments line = line.
Proof. intros H. unfold ditchComments. now rewrite H. Qed.

Lemma parseLine_of_cut line k v :
  cut (ditchComments line) equals = Some (k, v) ->
  parseLine line = (parseKey k, parseValue v, None).
Proof.
  intros Hcut. assert (Hne : line <> "") by (intros ->; discriminate Hcut).
  now rewrite (parseLine_nonempty line Hne), splitKeyValue_cut, Hcut.
Qed.

Lemma parseLine_of_cut_colon line k v :
  cut (ditchComments line) equals = None ->
  cut (ditchComments line) colon = Some (k, v) ->
  parseLine line = (parseKey k, parseValue v, None).
Proof.
  intros He Hc. assert (Hne : line <> "") by (intros ->; discriminate Hc).
  now rewrite (parseLine_nonempty line Hne), splitKeyValue_cut, He, Hc.
Qed.

Lemma cut_at p sep s :
  Contains p sep = false -> cut (p +:+ String sep s) sep = Some (p, s).
Proof.
  intros Hp. rewrite (cut_app_clean p _ sep Hp). cbn [cut].
  now rewrite Ascii.eqb_refl, app_empty_r.
Qed.

Lemma Split_at p sep s :
  Contains p sep = false -> Split (p +:+ String sep s) sep = p :: Split s sep.
Proof.
  intros Hp. rewrite (Split_app_clean p _ sep Hp). cbn [Split].
  now rewrite Ascii.eqb_refl, app_empty_r.
Qed.


Lemma togglesQuote_plain p :
  Contains p dquote = false -> Contains p squote = false -> togglesQuote p = false.
Proof.
  intros Hd Hs. unfold togglesQuote.
  now rewrite (Contains_false_Count p dquote Hd), (Contains_false_Count p squote Hs).
Qed.

Lemma togglesQuote_app_plain p value :
  Contains value dquote = false -> Contains value squote = false ->
  togglesQuote (p +:+ value) = togglesQuote p.
Proof.
  intros Hd Hs. unfold togglesQuote. rewrite !Count_app.
  rewrite (Contains_false_Count value dquote Hd), (Contains_false_Count value squote Hs).
  now rewrite !Nat.add_0_r.
Qed.

(** Outside a quoted region, segments without a lone quote are dropped. *)
Lemma laterSegments_closed segs :
  (forall seg, seg ∈ segs -> togglesQuote seg = false) ->
  laterSegments false segs = [].
Proof.
  induction segs as [|seg segs IH]; intros H; [reflexivity |].
  cbn [laterSegments]. rewrite (H seg) by left. cbn.
  apply IH. intros x Hx. apply H. now right.
Qed.

(** Without quote characters, everything from the first hash on goes. *)
Lemma ditchComments_unquoted line body rest :
  Contains line dquote = false -> Contains line squote = false ->
  cut line hash = Some (body, rest) ->
  ditchComments line = body.
Proof.
  intros Hd Hs Hcut. apply cut_Some in Hcut as [-> Hbody].
  rewrite Contains_app in Hd, Hs.
  apply orb_false_iff in Hd as [Hbd Hrd]. apply orb_false_iff in Hs as [Hbs Hrs].
  unfold ditchComments. rewrite Contains_app. cbn [Contains].
  rewrite Ascii.eqb_refl, orb_true_r.
  rewrite (Split_at body hash rest Hbody), comment_loop.
  rewrite (togglesQuote_plain body Hbd Hbs).
  rewrite laterSegments_closed; [reflexivity |].
  intros seg Hseg. apply togglesQuote_plain.
  - destruct (Contains seg dquote) eqn:E; [| reflexivity].
    cbn [Contains] in Hrd. change (Ascii.eqb hash dquote) with false in Hrd.
    now rewrite (Split_Contains rest hash dquote seg Hseg E) in Hrd.
  - destruct (Contains seg squote) eqn:E; [| reflexivity].
    cbn [Contains] in Hrs. change (Ascii.eqb hash squote) with false in Hrs.
    now rewrite (Split_Contains rest hash squote seg Hseg E) in Hrs.
Qed.

(** Inside a quoted region every segment is kept, up to and including the
    one with the closing quote. *)
Lemma laterSegments_open body q :
  q = dquote \/ q = squote ->
  Contains body dquote = false -> Contains body squote = false ->
  laterSegments true (Split (body +:+ str q) hash) = Split (body +:+ str q) hash.
Proof.
  intros Hq. induction body as [|c body IH]; intros Hd Hs.
  - destruct Hq as [-> | ->]; reflexivity.
  - cbn [Contains] in Hd, Hs.
    destruct (Ascii.eqb c dquote) eqn:Ecd; [discriminate |].
    destruct (Ascii.eqb c squote) eqn:Ecs; [discriminate |].
    specialize (IH Hd Hs). cbn [String.append Split]. fold String.append.
    destruct (Ascii.eqb c hash).
    + cbn [laterSegments]. change (togglesQuote "") with false. cbn.
      now rewrite IH.
    + destruct (Split (body +:+ str q) hash) as [|seg segs] eqn:E;
        [now apply Split_not_nil in E |].
      assert (Ht : togglesQuote (String c seg) = togglesQuote seg).
      { unfold togglesQuote. cbn [Count]. now rewrite Ecd, Ecs. }
      cbn [laterSegments] in IH |- *. rewrite Ht.
      destruct (togglesQuote seg); cbn in IH |- *;
        injection IH as IH; now rewrite IH.
Qed.

(** After an opening quote the rest of the line, hashes included, is kept
    when a quote closes it. *)
Lemma ditchComments_quoted p body q :
  q = dquote \/ q = squote ->
  Contains p hash = false -> togglesQuote p = true ->
  Contains body dquote = false -> Contains body squote = false ->
  ditchComments (p +:+ body +:+ str q) = p +:+ body +:+ str q.
Proof.
  intros Hq. revert p. induction body as [|c body IH]; intros p Hp Ht Hd Hs.
  - apply ditchComments_no_hash. rewrite Contains_app, Hp.
    destruct Hq as [-> | ->]; reflexivity.
  - cbn [Contains] in Hd, Hs.
    destruct (Ascii.eqb c dquote) eqn:Ecd; [discriminate |].
    destruct (Ascii.eqb c squote) eqn:Ecs; [discriminate |].
    destruct (Ascii.eqb_spec c hash) as [-> | Hne].
    + change (String hash body +:+ str q) with (String hash (body +:+ str q)).
      unfold ditchComments. rewrite Contains_app. cbn [Contains].
      rewrite Ascii.eqb_refl, orb_true_r.
      rewrite (Split_at p hash _ Hp), comment_loop, Ht.
      rewrite (laterSegments_open body q Hq Hd Hs).
      rewrite Join_cons by apply Split_not_nil.
      now rewrite Join_Split.
    + change (p +:+ String c body +:+ str q)
        with (p +:+ (str c +:+ (body +:+ str q))).
      rewrite <- app_assoc_str. apply IH; try assumption.
      * rewrite Contains_app, Hp. cbn [Contains str].
        destruct (Ascii.eqb_spec c hash); [contradiction | reflexivity].
      * rewrite togglesQuote_app_plain; [exact Ht | |]; cbn [Contains str].
        -- now rewrite Ecd.
        -- now rewrite Ecs.
Qed.

Lemma lastByte_app_str p c : lastByte (p +:+ str c) = Some c.
Proof.
  induction p as [|x p IH]; [reflexivity |].
  simpl. destruct (p +:+ str c) eqn:E; [now destruct p | exact IH].
Qed.

Lemma lastByte_Contains p c : lastByte p = Some c -> Contains p c = true.
Proof.
  induction p as [|x p IH]; [discriminate |].
  cbn [lastByte Contains]. destruct p as [|y p].
  - intros [= ->]. now rewrite Ascii.eqb_refl.
  - intros H. rewrite (IH H). now destruct (Ascii.eqb x c).
Qed.

Lemma inCutset_quotes c :
  inCutset quotes c = true -> c = dquote \/ c = squote.
Proof.
  unfold quotes. cbn [inCutset str].
  destruct (Ascii.eqb_spec c dquote); [now left |].
  destruct (Ascii.eqb_spec c squote); [now right | discriminate].
Qed.

(** Trimming the quotes of a quoted text without quotes inside gives the
    text. *)
Lemma Trim_quoted body q :
  q = dquote \/ q = squote ->
  Contains body dquote = false -> Contains body squote = false ->
  Trim (quoted q body) quotes = body.
Proof.
  intros Hq Hd Hs.
  assert (Hin : inCutset quotes q = true) by (destruct Hq as [-> | ->]; reflexivity).
  assert (Hclean : cleanEdges quotes body).
  { split; intros c Hc; destruct (inCutset quotes c) eqn:E; try reflexivity;
      apply inCutset_quotes in E.
    - destruct body as [|x body]; [discriminate |]. injection Hc as ->.
      cbn [Contains] in Hd, Hs. destruct E as [-> | ->].
      + now rewrite Ascii.eqb_refl in Hd.
      + now rewrite Ascii.eqb_refl in Hs.
    - apply lastByte_Contains in Hc. destruct E as [-> | ->]; congruence. }
  unfold Trim, quoted. change (str q +:+ body +:+ str q) with (String q (body +:+ str q)).
  cbn [TrimLeft]. rewrite Hin.
  assert (HL : TrimLeft (body +:+ str q) quotes = TrimLeft body quotes +:+
                 (if body is "" then "" else str q)).
  { destruct body as [|x body].
    { change ("" +:+ str q) with (String q ""). cbn [TrimLeft]. now rewrite Hin. }
    cbn [String.append TrimLeft]. fold String.append.
    now rewrite (proj1 Hclean x eq_refl). }
  rewrite HL, (TrimLeft_clean body quotes (proj1 Hclean)).
  destruct body as [|x body]; [reflexivity |].
  rewrite TrimRight_app_allOf by (unfold str; cbn [allOf]; now rewrite Hin).
  apply TrimRight_clean, Hclean.
Qed.

(** A quoted value without quotes inside: the comment loop keeps the line,
    the quotes are trimmed and the escapes expanded. *)
Lemma parseLine_quoted key body q :
  q = dquote \/ q = squote ->
  Contains key equals = false ->
  Contains key hash = false ->
  Contains key dquote = false ->
  Contains key squote = false ->
  Contains body dquote = false ->
  Contains body squote = false ->
  ditchComments (key +:+ "=" +:+ quoted q body) = key +:+ "=" +:+ quoted q body /\
  parseLine (key +:+ "=" +:+ quoted q body) = (parseKey key, Spec.unescape body, None).
Proof.
  intros Hq Hke Hkh Hkd Hks Hbd Hbs.
  assert (Hline : key +:+ "=" +:+ quoted q body
                  = (key +:+ "=" +:+ str q) +:+ body +:+ str q).
  { unfold quoted. now rewrite !app_assoc_str. }
  assert (Hditch : ditchComments (key +:+ "=" +:+ quoted q body)
                   = key +:+ "=" +:+ quoted q body).
  { rewrite Hline. apply (ditchComments_quoted _ body q Hq); try assumption.
    - rewrite Contains_app, Hkh. destruct Hq as [-> | ->]; reflexivity.
    - unfold togglesQuote. rewrite !Count_app.
      rewrite (Contains_false_Count key dquote Hkd), (Contains_false_Count key squote Hks).
      destruct Hq as [-> | ->]; reflexivity. }
  split; [exact Hditch |].
  rewrite (parseLine_of_cut _ key (quoted q body)) by (rewrite Hditch; now apply cut_at).
  f_equal. f_equal. unfold parseValue.
  assert (Htrim : Trim (quoted q body) " " = quoted q body).
  { apply Trim_clean. split; intros c.
    - intros [= <-]. destruct Hq as [-> | ->]; reflexivity.
    - unfold quoted. rewrite <- app_assoc_str, lastByte_app_str.
      intros [= <-]. destruct Hq as [-> | ->]; reflexivity. }
  rewrite Htrim.
  assert (Hcount : Nat.eqb (Count (quoted q body) dquote) 2
                   || Nat.eqb (Count (quoted q body) squote) 2 = true).
  { unfold quoted. rewrite !Count_app.
    rewrite (Contains_false_Count body dquote Hbd), (Contains_false_Count body squote Hbs).
    destruct Hq as [-> | ->]; reflexivity. }
  rewrite Hcount. fold quotes. now rewrite (Trim_quoted body q Hq Hbd Hbs).
Qed.




End MoreParseFacts.

(** ** The comment rule *)




(** ** Further properties of the line parser *)

(** X1: [parseLine] succeeds exactly when the line, once its comments are
    dropped, contains [=] or [:]; when it fails the key and the value are
    empty and the error is the zero-length one for the empty line and the
    separator one otherwise. *)
Theorem parseLine_fails_iff_no_separator (line : string) :
  (snd (parseLine line) = None <->
     Contains (ditchComments line) equals = true \/
     Contains (ditchComments line) colon = true) /\
  (forall err,
      snd (parseLine line) = Some err ->
      fst (parseLine line) = ("", "") /\
      err = errors_New (if Nat.eqb (String.length line) 0
                        then "zero length string"
                        else "Can't separate key from value")).
Proof.
  destruct line as [|x line].
  { split; [split; [discriminate | intros [H | H]; discriminate H] |].
    intros err [= <-]. split; reflexivity. }
  rewrite (parseLine_nonempty (String x line)) by discriminate.
  rewrite splitKeyValue_cut.
  destruct (cut (ditchComments (String x line)) equals) as [[k v]|] eqn:Ee.
  { apply cut_Some in Ee as [Hd _]. split; [| discriminate].
    split; [| reflexivity]. intros _. left. rewrite Hd, Contains_app. cbn [Contains].
    now rewrite Ascii.eqb_refl, orb_true_r. }
  apply cut_None_inv in Ee.
  destruct (cut (ditchComments (String x line)) colon) as [[k v]|] eqn:Ec.
  { apply cut_Some in Ec as [Hd _]. split; [| discriminate].
    split; [| reflexivity]. intros _. right. rewrite Hd, Contains_app. cbn [Contains].
    now rewrite Ascii.eqb_refl, orb_true_r. }
  apply cut_None_inv in Ec. split.
  - split; [discriminate | intros [H | H]; congruence].
  - intros err [= <-]. split; reflexivity.
Qed.

Lemma parseLine_fails_iff_no_separator_witness :
  fst (parseLine "no separator here") = ("", "") /\
  errors_New "Can't separate key from value" =
    errors_New (if Nat.eqb (String.length "no separator here") 0
                then "zero length string"
                else "Can't separate key from value").
Proof.
  apply (proj2 (parseLine_fails_iff_no_separator "no separator here")).
  reflexivity.
Defined.

(** X2: on a line without hash, [parseLine] splits at the first [=]: the key
    is what precedes it, also when that contains a colon, and the value is
    everything after it, later [=] and [:] included; an empty key or an
    empty value still parses. *)
Theorem first_equals_splits (key value : string) :
  Contains key equals = false ->
  Contains (key +:+ "=" +:+ value) hash = false ->
  parseLine (key +:+ "=" +:+ value) = (parseKey key, parseValue value, None).
Proof.
  intros Hkey Hhash. apply parseLine_of_cut.
  rewrite (ditchComments_no_hash _ Hhash). now apply cut_at.
Qed.

Lemma first_equals_splits_witness :
  parseLine ("a:b" +:+ "=" +:+ "c=d:e") = (parseKey "a:b", parseValue "c=d:e", None).
Proof. apply (first_equals_splits "a:b" "c=d:e"); reflexivity. Defined.

(** X3: on a line without hash and without [=], [parseLine] splits at the
    first colon. *)
Theorem colon_splits_without_equals (key value : string) :
  Contains key colon = false ->
  Contains (key +:+ ":" +:+ value) equals = false ->
  Contains (key +:+ ":" +:+ value) hash = false ->
  parseLine (key +:+ ":" +:+ value) = (parseKey key, parseValue value, None).
Proof.
  intros Hkey Hequals Hhash. apply parseLine_of_cut_colon.
  - rewrite (ditchComments_no_hash _ Hhash). now apply cut_None.
  - rewrite (ditchComments_no_hash _ Hhash). now apply cut_at.
Qed.

Lemma colon_splits_without_equals_witness :
  parseLine ("name" +:+ ":" +:+ " value: more") =
    (parseKey "name", parseValue " value: more", None).
Proof. apply (colon_splits_without_equals "name" " value: more"); reflexivity. Defined.

(** X4: a key that a line stores contains no [=] and neither starts nor ends
    with a space. *)
Theorem stored_key_shape (line key value : string) :
  yields line = Some (key, value) ->
  Contains key equals = false /\ cleanEdges " " key.
Proof.
  unfold yields. destruct (isIgnoredLine line); [discriminate |].
  destruct line as [|x line]; [discriminate |].
  rewrite (parseLine_nonempty (String x line)) by discriminate.
  rewrite splitKeyValue_cut.
  assert (Hshape : forall k, Contains k equals = false ->
            Contains (parseKey k) equals = false /\ cleanEdges " " (parseKey k)).
  { intros k Hk. split.
    - destruct (Contains (parseKey k) equals) eqn:E; [| reflexivity].
      unfold parseKey in E. apply Contains_Trim in E.
      destruct (HasPrefix k "export"); [| congruence].
      unfold TrimPrefix in E. destruct (HasPrefix k "export"); [| congruence].
      apply Contains_drop in E. congruence.
    - unfold parseKey.
      destruct (Trim_spec (if HasPrefix k "export" then TrimPrefix k "export" else k) " ")
        as (_ & _ & _ & _ & _ & Hclean).
      exact Hclean. }
  destruct (cut (ditchComments (String x line)) equals) as [[k v]|] eqn:Ee.
  - intros [= <- _]. apply Hshape. now apply cut_Some in Ee.
  - apply cut_None_inv in Ee.
    destruct (cut (ditchComments (String x line)) colon) as [[k v]|] eqn:Ec;
      [| discriminate].
    intros [= <- _]. apply Hshape. apply cut_Some in Ec as [Hd _].
    rewrite Hd, Contains_app in Ee. now apply orb_false_iff in Ee.
Qed.

Lemma stored_key_shape_witness :
  Contains "KEY" equals = false /\ cleanEdges " " "KEY".
Proof. apply (stored_key_shape "export  KEY  = a=b" "KEY" "a=b"). reflexivity. Defined.

(** X5: the prefix [export] is looked for before the key is trimmed, so on a
    line that starts with a space the word stays in the stored key. *)
Theorem indented_export_stays_in_key (key value : string) :
  Contains key equals = false ->
  Contains (key +:+ "=" +:+ value) hash = false ->
  parseLine (" export " +:+ key +:+ "=" +:+ value) =
    (Trim ("export " +:+ key) " ", parseValue value, None) /\
  HasPrefix (Trim ("export " +:+ key) " ") "export" = true.
Proof.
  intros Hkey Hhash. split.
  - rewrite <- (app_assoc_str " export " key).
    rewrite (parseLine_of_cut _ (" export " +:+ key) value).
    + unfold parseKey. change (HasPrefix (" export " +:+ key) "export") with false.
      cbn iota. change (" export " +:+ key) with (" " +:+ "export " +:+ key).
      now rewrite (Trim_allOf_app " " " " _ eq_refl).
    + rewrite ditchComments_no_hash.
      * apply cut_at. now rewrite Contains_app, Hkey.
      * rewrite app_assoc_str. now rewrite Contains_app, Hhash.
  - unfold Trim. change ("export " +:+ key) with (String "e" ("xport " +:+ key)).
    cbn [TrimLeft]. change (inCutset " " "e") with false. cbn iota.
    change (String "e" ("xport " +:+ key)) with ("expor" +:+ String "t" (" " +:+ key)).
    rewrite (TrimRight_app_kept "expor" "t" _ " " eq_refl).
    destruct (TrimRight_keeps_head (" " +:+ key) " " "t" eq_refl) as (kept & ->).
    reflexivity.
Qed.

Lemma indented_export_stays_in_key_witness :
  parseLine (" export " +:+ "KEY" +:+ "=" +:+ "1") =
    (Trim ("export " +:+ "KEY") " ", parseValue "1", None) /\
  HasPrefix (Trim ("export " +:+ "KEY") " ") "export" = true.
Proof. apply (indented_export_stays_in_key "KEY" "1"); reflexivity. Defined.

(** X6: on a line without any quote character, everything from the first
    hash on is a comment: with the key before the first [=] and the value
    free of hashes, [parseLine] returns the trimmed key and the value with
    its surrounding spaces removed, escapes left as written. *)
Theorem unquoted_value_and_comment (key value comment : string) :
  Contains key equals = false ->
  Contains (key +:+ "=" +:+ value) hash = false ->
  Contains (key +:+ "=" +:+ value +:+ "#" +:+ comment) dquote = false ->
  Contains (key +:+ "=" +:+ value +:+ "#" +:+ comment) squote = false ->
  ditchComments (key +:+ "=" +:+ value +:+ "#" +:+ comment) = key +:+ "=" +:+ value /\
  parseLine (key +:+ "=" +:+ value +:+ "#" +:+ comment) =
    (parseKey key, Trim value " ", None).
Proof.
  intros Hkey Hhash Hd Hs.
  assert (Hline : key +:+ "=" +:+ value +:+ "#" +:+ comment
                  = (key +:+ "=" +:+ value) +:+ String hash comment).
  { now rewrite !app_assoc_str. }
  assert (Hditch : ditchComments (key +:+ "=" +:+ value +:+ "#" +:+ comment)
                   = key +:+ "=" +:+ value).
  { apply (ditchComments_unquoted _ _ comment Hd Hs).
    rewrite Hline. now apply cut_at. }
  split; [exact Hditch |].
  rewrite (parseLine_of_cut _ key value) by (rewrite Hditch; now apply cut_at).
  f_equal. f_equal. unfold parseValue.
  rewrite !Contains_app in Hd, Hs.
  assert (Hvd : Contains value dquote = false).
  { destruct (Contains value dquote); [| reflexivity].
    now rewrite !orb_true_r in Hd. }
  assert (Hvs : Contains value squote = false).
  { destruct (Contains value squote); [| reflexivity].
    now rewrite !orb_true_r in Hs. }
  assert (Hcount : forall c, Contains value c = false -> Count (Trim value " ") c = 0).
  { intros c Hc. apply Contains_false_Count.
    destruct (Contains (Trim value " ") c) eqn:E; [| reflexivity].
    apply Contains_Trim in E. congruence. }
  now rewrite (Hcount dquote Hvd), (Hcount squote Hvs).
Qed.

Lemma unquoted_value_and_comment_witness :
  ditchComments ("PORT" +:+ "=" +:+ " 80\n " +:+ "#" +:+ " the # port")
    = "PORT" +:+ "=" +:+ " 80\n " /\
  parseLine ("PORT" +:+ "=" +:+ " 80\n " +:+ "#" +:+ " the # port") =
    (parseKey "PORT", Trim " 80\n " " ", None).
Proof.
  apply (unquoted_value_and_comment "PORT" " 80\n " " the # port"); reflexivity.
Defined.



(** X8: the ignored lines are exactly the lines made of spaces, newlines and
    tabs only, and the lines that have a hash after such a prefix. *)
Theorem isIgnoredLine_iff (line : string) :
  isIgnoredLine line = true <->
  exists ws rest,
    allOf whitespace ws = true /\ (line = ws \/ line = ws +:+ String hash rest).
Proof.
  split.
  - intros H. unfold isIgnoredLine in H. fold whitespace in H.
    destruct (Trim_spec line whitespace) as (pre & suf & Hl & Hpre & Hsuf & _).
    destruct (Trim line whitespace) as [|c t] eqn:E.
    + exists (pre +:+ suf), "". split; [| now left].
      now rewrite allOf_app, Hpre, Hsuf.
    + cbn in H. destruct (Ascii.eqb_spec c "#") as [-> | _]; [| discriminate].
      exists pre, (t +:+ suf). split; [exact Hpre | right; exact Hl].
  - intros (ws & rest & Hws & Hline). exact (isIgnoredLine_spec ws rest line Hws Hline).
Qed.

(** X9: quoting protects a value: for a key without quote, hash or [=] and a
    text without quote or backslash, the line [key=], quote, text, quote
    (double or single) parses to the text itself, with its hashes, its
    separators and its leading and trailing spaces. *)
Theorem quoted_value_round_trip (key body : string) (q : ascii) :
  q = dquote \/ q = squote ->
  Contains key equals = false ->
  Contains key hash = false ->
  Contains key dquote = false ->
  Contains key squote = false ->
  Contains body dquote = false ->
  Contains body squote = false ->
  Contains body backslash = false ->
  ditchComments (key +:+ "=" +:+ quoted q body) = key +:+ "=" +:+ quoted q body /\
  parseLine (key +:+ "=" +:+ quoted q body) = (parseKey key, body, None).
Proof.
  intros Hq Hke Hkh Hkd Hks Hbd Hbs Hbb.
  destruct (parseLine_quoted key body q Hq Hke Hkh Hkd Hks Hbd Hbs) as [Hditch Hparse].
  split; [exact Hditch |]. rewrite Hparse. unfold Spec.unescape.
  now rewrite !(Replace_absent body backslash) by exact Hbb.
Qed.

Lemma quoted_value_round_trip_witness :
  ditchComments ("KEY" +:+ "=" +:+ quoted squote " a=b # c: d ") =
    "KEY" +:+ "=" +:+ quoted squote " a=b # c: d " /\
  parseLine ("KEY" +:+ "=" +:+ quoted squote " a=b # c: d ") =
    (parseKey "KEY", " a=b # c: d ", None).
Proof.
  apply (quoted_value_round_trip "KEY" " a=b # c: d " squote);
    [right |..]; reflexivity.
Defined.



(** ** More about the store *)

Section MoreStoreFacts.
Implicit Types (vals : gmap string iface) (line key : string)
  (lines : list string).

(** The keys after the loop: those before it and those the lines yield. *)
Lemma fold_storeLine_dom lines vals key :
  is_Some (fold_left storeLine lines vals !! key) <->
  is_Some (vals !! key) \/
  exists line, line ∈ lines /\ fst <$> yields line = Some key.
Proof.
  revert vals. induction lines as [|l lines IH]; intros vals; cbn [fold_left].
  - split; [now left |]. intros [H | (line & Hin & _)]; [exact H |].
    now apply elem_of_nil in Hin.
  - rewrite IH, storeLine_yields. split.
    + intros [H | (line & Hin & Hy)].
      * destruct (yields l) as [[k v]|] eqn:E; [| now left].
        destruct (decide (k = key)) as [-> | Hne].
        -- right. exists l. split; [left |]. now rewrite E.
        -- rewrite lookup_insert_ne in H by exact Hne. now left.
      * right. exists line. split; [now right | exact Hy].
    + intros [H | (line & Hin & Hy)].
      * left. destruct (yields l) as [[k v]|]; [| exact H].
        destruct (decide (k = key)) as [-> | Hne].
        -- rewrite lookup_insert_eq. eauto.
        -- now rewrite lookup_insert_ne by exact Hne.
      * apply elem_of_cons in Hin as [-> | Hin].
        -- left. destruct (yields l) as [[k v]|]; [| discriminate].
           injection Hy as ->. rewrite lookup_insert_eq. eauto.
        -- right. exists line. split; [exact Hin | exact Hy].
Qed.

Lemma fold_storeLine_size lines vals :
  size (fold_left storeLine lines vals) <= size vals + List.length lines.
Proof.
  revert vals. induction lines as [|l lines IH]; intros vals; cbn [fold_left List.length].
  - lia.
  - etrans; [apply IH |]. rewrite storeLine_yields.
    destruct (yields l) as [[k v]|]; [| lia].
    rewrite map_size_insert. destruct (vals !! k); simpl; lia.
Qed.

Lemma entries_cons line lines :
  entries (line :: lines) =
    match yields line with
    | Some (key, value) => (key, IfaceString value) :: entries lines
    | None => entries lines
    end.
Proof. unfold entries. simpl. now destruct (yields line) as [[k v]|]. Qed.

(** The loop inserts the entries of the lines, in input order. *)
Lemma fold_storeLine_entries lines vals :
  fold_left storeLine lines vals =
  foldr (fun p acc => <[p.1 := p.2]> acc) vals (reverse (entries lines)).
Proof.
  revert vals. induction lines as [|l lines IH]; intros vals; [reflexivity |].
  cbn [fold_left]. rewrite IH, storeLine_yields, entries_cons.
  destruct (yields l) as [[k v]|]; [| reflexivity].
  now rewrite reverse_cons, foldr_app.
Qed.

End MoreStoreFacts.

(** ** Further properties of [Setup] and the accessors *)

Section MoreLoaderClaims.
Context {World Reader float64 : Type}.
Variable scanLines : Reader -> list string.
Variable os_Open : string -> World -> error + Reader.
Variable ParseFloat : string -> float64 * option error.
Variable ParseInt : string -> Z * option error.
Variable ParseBool : string -> bool * option error.
Variable int_of_float64 : float64 -> Z.

Implicit Types (h : DotEnv World Reader) (w : World) (r : Reader)
  (name line key value path : string) (before after : list string).

Local Abbreviation Setup := (Setup scanLines).
Local Abbreviation Int := (Int ParseFloat ParseInt int_of_float64).
Local Abbreviation Bool := (Bool ParseBool).
Local Abbreviation reportsMissing :=
  (reportsMissing ParseFloat ParseInt ParseBool int_of_float64).
Local Abbreviation reachable := (reachable scanLines).
Local Abbreviation NewDotEnvFromFile := (FromFile.NewDotEnvFromFile os_Open).

(** X11: after a successful [Setup] the store holds exactly the keys that
    some line of the input yields, and no more keys than there are lines. *)
Theorem stored_keys_are_yielded_keys h w r :
  gen h w = inr r ->
  exists vals,
    values (fst (Setup h w)) = Some vals /\
    (forall key,
        is_Some (vals !! key) <->
        exists line, line ∈ scanLines r /\ fst <$> yields line = Some key) /\
    size vals <= List.length (scanLines r).
Proof.
  intros Hgen. rewrite (Setup_ok scanLines h w r Hgen). cbn [fst values].
  eexists. split; [reflexivity |]. split.
  - intros key. rewrite fold_storeLine_dom. split; [| now right].
    intros [H | H]; [| exact H]. rewrite lookup_empty in H. now destruct H.
  - etrans; [apply fold_storeLine_size |]. now rewrite map_size_empty.
Qed.

(** X12: a successful [Setup] builds the store from the input alone: loading
    again after an earlier load gives what a first load gives, and a key
    that no line of the new input yields is gone. *)
Theorem reload_replaces_store h w1 w2 r1 r2 :
  gen h w1 = inr r1 ->
  gen h w2 = inr r2 ->
  Setup (fst (Setup h w1)) w2 = Setup h w2 /\
  forall key,
    (forall line, line ∈ scanLines r2 -> fst <$> yields line <> Some key) ->
    lookupValues (fst (Setup (fst (Setup h w1)) w2)) key = None.
Proof.
  intros H1 H2. rewrite (Setup_ok scanLines h w1 r1 H1). cbn [fst].
  rewrite (Setup_ok scanLines h w2 r2 H2).
  rewrite (Setup_ok scanLines {| values := _; gen := gen h |} w2 r2 H2).
  split; [reflexivity |]. intros key Hkey. unfold lookupValues. cbn [fst values].
  now rewrite (fold_storeLine_other (scanLines r2) ∅ key Hkey).
Qed.

(** X13: a loader made by [NewDotEnvFromFile] opens the file at each [Setup];
    when a later [Setup] cannot open it, the error of [os.Open] is returned
    and the values loaded before stay in the store. *)
Theorem failed_reload_keeps_values path w1 w2 r1 err :
  os_Open path w1 = inr r1 ->
  os_Open path w2 = inl err ->
  let h1 := fst (Setup (NewDotEnvFromFile path) w1) in
  Setup h1 w2 = (h1, Some err) /\
  forall name,
    lookupValues (fst (Setup h1 w2)) name =
    fold_left storeLine (scanLines r1) ∅ !! name.
Proof.
  intros H1 H2 h1. subst h1.
  rewrite (Setup_ok scanLines (NewDotEnvFromFile path) w1 r1 H1). cbn [fst].
  rewrite (Setup_failed scanLines {| values := _; gen := os_Open path |} w2 err H2).
  split; reflexivity.
Qed.

(** X14: when no key is yielded twice, the order of the lines does not
    matter: two inputs that are permutations of each other give the same
    store, the map of the entries. *)
Theorem line_order_irrelevant_without_duplicates h w1 w2 r1 r2 :
  gen h w1 = inr r1 ->
  gen h w2 = inr r2 ->
  scanLines r1 ≡ₚ scanLines r2 ->
  NoDup (fst <$> entries (scanLines r1)) ->
  Setup h w1 = Setup h w2 /\
  values (fst (Setup h w1)) = Some (list_to_map (entries (scanLines r1))).
Proof.
  intros H1 H2 Hperm Hnodup.
  rewrite (Setup_ok scanLines h w1 r1 H1), (Setup_ok scanLines h w2 r2 H2).
  assert (Hmap : forall lines,
             fold_left storeLine lines ∅ = list_to_map (reverse (entries lines))).
  { intros lines. apply fold_storeLine_entries. }
  assert (Hrev : forall lines,
             NoDup (fst <$> entries lines) ->
             (list_to_map (reverse (entries lines)) : gmap string iface)
             = list_to_map (entries lines)).
  { intros lines Hnd. apply list_to_map_proper; [| apply reverse_Permutation].
    now rewrite fmap_reverse, reverse_Permutation. }
  assert (Hentries : entries (scanLines r1) ≡ₚ entries (scanLines r2)).
  { unfold entries. now rewrite Hperm. }
  assert (Hnodup2 : NoDup (fst <$> entries (scanLines r2))) by now rewrite <- Hentries.
  rewrite !Hmap, !Hrev by assumption. cbn [fst values].
  rewrite (list_to_map_proper _ _ Hnodup Hentries). split; reflexivity.
Qed.

(** X15: on a reachable loader [Int] returns a non-nil error only for a
    missing key, with [0]; a stored value that is not a number never comes
    back as an error. *)
Theorem Int_error_only_for_missing_key h name n err :
  reachable h ->
  Int h name = Returns (n, Some err) ->
  lookupValues h name = None /\ n = 0%Z /\
  err = errors_New "variable does not exist".
Proof.
  intros Hreach HInt.
  destruct (lookupValues h name) as [v|] eqn:Hv.
  - destruct (reachable_allStrings scanLines h Hreach name v Hv) as (s & ->).
    rewrite (Int_stored _ _ _ h name s Hv) in HInt.
    destruct (ParseFloat s) as [f [e1|]]; [| discriminate].
    destruct (ParseInt s) as [i [e2|]]; discriminate.
  - destruct (missing_reported ParseFloat ParseInt ParseBool int_of_float64 h name Hv)
      as (_ & Hmissing & _).
    rewrite Hmissing in HInt. injection HInt as <- <-. repeat split.
Qed.

(** X16: on a reachable loader [String] returns [s] with a nil error exactly
    when the store maps the key to [s]. *)
Theorem String_returns_the_stored_value h name s :
  reachable h ->
  String_ h name = Returns (s, None) <->
  lookupValues h name = Some (IfaceString s).
Proof.
  intros Hreach. split.
  - intros HS. destruct (lookupValues h name) as [v|] eqn:Hv.
    + destruct (reachable_allStrings scanLines h Hreach name v Hv) as (s' & ->).
      rewrite (String_stored h name s' Hv) in HS. now injection HS as ->.
    + destruct (missing_reported ParseFloat ParseInt ParseBool int_of_float64 h name Hv)
        as (Hmissing & _).
      rewrite Hmissing in HS. discriminate.
  - apply String_stored.
Qed.

(** X17: values become available through [Setup] only: a new loader reports
    as missing even a key that a line of the input yields, and that key is
    in the store after [Setup]. *)
Theorem values_only_after_Setup (gen0 : World -> error + Reader) w r line key value :
  gen0 w = inr r ->
  line ∈ scanLines r ->
  yields line = Some (key, value) ->
  reportsMissing (NewDotEnv gen0) key /\
  is_Some (lookupValues (fst (Setup (NewDotEnv gen0) w)) key).
Proof.
  intros Hgen Hin Hy. split.
  - now apply missing_reported.
  - rewrite (Setup_ok scanLines (NewDotEnv gen0) w r Hgen).
    unfold lookupValues. cbn [fst values]. apply fold_storeLine_dom.
    right. exists line. split; [exact Hin |]. now rewrite Hy.
Qed.

End MoreLoaderClaims.

(** ** The claims on the closed instance *)

Import Demo.

Lemma ignorable_line_stores_no_key_witness :
  yields "  # note" = None /\
  (forall vals, storeLine vals "  # note" = vals) /\
  Demo.Setup (NewDotEnvFromFile "env") sample =
    ({| values := Some (fold_left storeLine
                          (["K=1"] ++ ["garbage"; "K=2"; "B=true"]) ∅);
        gen := os_Open "env" |}, None).
Proof.
  apply (ignorable_line_stores_no_key scanLines "  " " note" "  # note"
           (NewDotEnvFromFile "env") sample
           ["K=1"; "  # note"; "garbage"; "K=2"; "B=true"]
           ["K=1"] ["garbage"; "K=2"; "B=true"]).
  - right. split; reflexivity.
  - reflexivity.
  - reflexivity.
Defined.

Lemma last_occurrence_wins_witness :
  let h := fst (Demo.Setup (NewDotEnvFromFile "env") sample) in
  lookupValues h "K" = Some (IfaceString "2") /\
  String_ h "K" = Returns ("2", None) /\
  exists vals,
    values h = Some vals /\
    NoDup (fst <$> map_to_list vals) /\
    forall v, ("K", v) ∈ map_to_list vals -> v = IfaceString "2".
Proof.
  apply (last_occurrence_wins scanLines (NewDotEnvFromFile "env") sample
           ["K=1"; "  # note"; "garbage"; "K=2"; "B=true"]
           ["K=1"; "  # note"; "garbage"] "K=2" ["B=true"] "K" "2").
  - reflexivity.
  - reflexivity.
  - reflexivity.
  - intros l Hl. apply list_elem_of_singleton in Hl. subst l. discriminate.
Defined.

Lemma Setup_fails_only_with_generator_witness :
  snd (parseLine "garbage") <> None /\
  (forall vals, storeLine vals "garbage" = vals) /\
  Demo.Setup (NewDotEnvFromFile "env") sample =
    ({| values := Some (fold_left storeLine
                          (["K=1"; "  # note"] ++ ["K=2"; "B=true"]) ∅);
        gen := os_Open "env" |}, None).
Proof.
  destruct (Setup_fails_only_with_generator scanLines
              (NewDotEnvFromFile "env") sample) as (_ & _ & Hmalformed).
  apply (Hmalformed ["K=1"; "  # note"; "garbage"; "K=2"; "B=true"]
           ["K=1"; "  # note"] "garbage" ["K=2"; "B=true"]); reflexivity.
Defined.

Lemma missing_key_is_an_error_witness :
  reportsMissing Strconv.ParseFloat Strconv.ParseInt Strconv.ParseBool
    Strconv.int_of_float64 (holding "K" "abc") "this-message-does-not-exist" /\
  (snd (Demo.Setup (NewDotEnvFromFile "nofile") sample)
     = Some (libError "open" "no such file or directory") /\
   lookupValues (fst (Demo.Setup (NewDotEnvFromFile "nofile") sample)) "K" = None /\
   reportsMissing Strconv.ParseFloat Strconv.ParseInt Strconv.ParseBool
     Strconv.int_of_float64
     (fst (Demo.Setup (NewDotEnvFromFile "nofile") sample)) "K") /\
  Demo.Setup (holding "K" "abc") ∅ =
    (holding "K" "abc", Some (libError "open" "no such file or directory")).
Proof.
  destruct (missing_key_is_an_error (World := World) scanLines
              Strconv.ParseFloat Strconv.ParseInt Strconv.ParseBool
              Strconv.int_of_float64) as (Hmissing & Hfailed & Hkept).
  split; [| split].
  - apply Hmissing. reflexivity.
  - apply Hfailed; reflexivity.
  - apply Hkept. reflexivity.
Defined.

Lemma stored_values_are_strings_witness :
  let h := fst (Demo.Setup (NewDotEnvFromFile "dotenv") scenario) in
  allStrings h /\
  (forall vals line name v,
      (forall k x, vals !! k = Some x -> exists s, x = IfaceString s) ->
      storeLine vals line !! name = Some v -> exists s, v = IfaceString s) /\
  forall name v,
    lookupValues h name = Some v ->
    exists s,
      v = IfaceString s /\
      assertString v = Returns s /\
      String_ h name = Returns (s, None) /\
      Demo.Bool h name = Returns (Strconv.ParseBool s) /\
      forall p, Demo.Int h name = Panics p -> p = InterfaceConversion TString TInt.
Proof.
  apply (stored_values_are_strings scanLines
           Strconv.ParseFloat Strconv.ParseInt Strconv.ParseBool
           Strconv.int_of_float64).
  apply reach_setup, reach_new.
Defined.

Lemma Int_panics_when_both_parses_fail_witness :
  Demo.Int (holding "K" "abc") "K" = Panics (InterfaceConversion TString TInt).
Proof.
  apply (Int_panics_when_both_parses_fail
           Strconv.ParseFloat Strconv.ParseInt Strconv.int_of_float64
           (holding "K" "abc") "K" "abc"
           0%Q (Strconv.ErrSyntax "ParseFloat")
           0%Z (Strconv.ErrSyntax "ParseInt")); reflexivity.
Defined.

(** The scenario of the test file. *)
Example scenario_of_the_test :
  let h := fst (Demo.Setup (NewDotEnvFromFile "dotenv") scenario) in
  String_ h "s" = Returns ("hello", None) /\
  String_ h "S3_BUCKET" = Returns ("YOURS3BUCKET", None) /\
  String_ h "HASH" = Returns ("#", None) /\
  Demo.Int h "INT" = Returns (1%Z, None) /\
  String_ h "this-message-does-not-exist"
    = Returns ("", Some (errors_New "variable does not exist")).
Proof. vm_compute. repeat split. Qed.

(** ** The further properties on the closed instance *)

Lemma stored_keys_are_yielded_keys_witness :
  exists vals,
    values (fst (Demo.Setup (NewDotEnvFromFile "env") sample)) = Some vals /\
    (forall key,
        is_Some (vals !! key) <->
        exists line,
          line ∈ ["K=1"; "  # note"; "garbage"; "K=2"; "B=true"] /\
          fst <$> yields line = Some key) /\
    size vals <= List.length ["K=1"; "  # note"; "garbage"; "K=2"; "B=true"].
Proof.
  apply (stored_keys_are_yielded_keys scanLines (NewDotEnvFromFile "env") sample
           ["K=1"; "  # note"; "garbage"; "K=2"; "B=true"]).
  reflexivity.
Defined.

Lemma reload_replaces_store_witness :
  let h := NewDotEnvFromFile "env" in
  let edited : World := {[ "env" := ["B=false"] ]} in
  Demo.Setup (fst (Demo.Setup h sample)) edited = Demo.Setup h edited /\
  forall key,
    (forall line, line ∈ ["B=false"] -> fst <$> yields line <> Some key) ->
    lookupValues (fst (Demo.Setup (fst (Demo.Setup h sample)) edited)) key = None.
Proof.
  apply (reload_replaces_store scanLines (NewDotEnvFromFile "env")
           sample {[ "env" := ["B=false"] ]}
           ["K=1"; "  # note"; "garbage"; "K=2"; "B=true"] ["B=false"]);
    reflexivity.
Defined.

Lemma failed_reload_keeps_values_witness :
  let h1 := fst (Demo.Setup (FromFile.NewDotEnvFromFile os_Open "env") sample) in
  Demo.Setup h1 ∅ = (h1, Some (libError "open" "no such file or directory")) /\
  forall name,
    lookupValues (fst (Demo.Setup h1 ∅)) name =
    fold_left storeLine ["K=1"; "  # note"; "garbage"; "K=2"; "B=true"] ∅ !! name.
Proof.
  apply (failed_reload_keeps_values scanLines os_Open "env" sample ∅
           ["K=1"; "  # note"; "garbage"; "K=2"; "B=true"]
           (libError "open" "no such file or directory"));
    reflexivity.
Defined.

Lemma line_order_irrelevant_without_duplicates_witness :
  let h := NewDotEnvFromFile "env" in
  let one : World := {[ "env" := ["A=1"; "B=2"] ]} in
  let other : World := {[ "env" := ["B=2"; "A=1"] ]} in
  Demo.Setup h one = Demo.Setup h other /\
  values (fst (Demo.Setup h one)) = Some (list_to_map (entries ["A=1"; "B=2"])).
Proof.
  apply (line_order_irrelevant_without_duplicates scanLines
           (NewDotEnvFromFile "env")
           {[ "env" := ["A=1"; "B=2"] ]} {[ "env" := ["B=2"; "A=1"] ]}
           ["A=1"; "B=2"] ["B=2"; "A=1"]).
  - reflexivity.
  - reflexivity.
  - apply perm_swap.
  - change (NoDup ["A"; "B"]). apply (bool_decide_unpack _). reflexivity.
Defined.

Lemma Int_error_only_for_missing_key_witness :
  lookupValues (fst (Demo.Setup (NewDotEnvFromFile "env") sample)) "PORT" = None /\
  0%Z = 0%Z /\
  errors_New "variable does not exist" = errors_New "variable does not exist".
Proof.
  apply (Int_error_only_for_missing_key scanLines
           Strconv.ParseFloat Strconv.ParseInt Strconv.ParseBool
           Strconv.int_of_float64
           (fst (Demo.Setup (NewDotEnvFromFile "env") sample)) "PORT").
  - apply reach_setup, reach_new.
  - reflexivity.
Defined.

Lemma String_returns_the_stored_value_witness :
  String_ (fst (Demo.Setup (NewDotEnvFromFile "env") sample)) "B"
    = Returns ("true", None) <->
  lookupValues (fst (Demo.Setup (NewDotEnvFromFile "env") sample)) "B"
    = Some (IfaceString "true").
Proof.
  apply (String_returns_the_stored_value scanLines
           Strconv.ParseFloat Strconv.ParseInt Strconv.ParseBool
           Strconv.int_of_float64).
  apply reach_setup, reach_new.
Defined.

Lemma values_only_after_Setup_witness :
  reportsMissing Strconv.ParseFloat Strconv.ParseInt Strconv.ParseBool
    Strconv.int_of_float64 (NewDotEnv (os_Open "env")) "B" /\
  is_Some (lookupValues (fst (Demo.Setup (NewDotEnv (os_Open "env")) sample)) "B").
Proof.
  apply (values_only_after_Setup scanLines
           Strconv.ParseFloat Strconv.ParseInt Strconv.ParseBool
           Strconv.int_of_float64 (os_Open "env") sample
           ["K=1"; "  # note"; "garbage"; "K=2"; "B=true"] "B=true" "B" "true").
  - reflexivity.
  - set_solver.
  - reflexivity.
Defined.

(** C9, as stated, fails when [Setup] fails after an earlier successful
    [Setup]: the error is returned before the map is replaced, so the keys
    loaded before are still in the store, and [String] returns the value of
    [K] with a nil error. *)
Lemma failed_setup_after_load_still_answers :
  let h1 := fst (Demo.Setup (NewDotEnvFromFile "env") sample) in
  let h2 := fst (Demo.Setup h1 ∅) in
  snd (Demo.Setup h1 ∅) = Some (libError "open" "no such file or directory") /\
  lookupValues h2 "K" = Some (IfaceString "2") /\
  String_ h2 "K" = Returns ("2", None) /\
  Demo.Int h2 "K" = Returns (2%Z, None) /\
  ~ reportsMissing Strconv.ParseFloat Strconv.ParseInt Strconv.ParseBool
      Strconv.int_of_float64 h2 "K".
Proof.
  repeat split. intros (HString & _). discriminate HString.
Qed.
